(** * Regions plugin and drag recogniser: a shallow embedding

    This development embeds the position logic of the regions plugin
    ([Region], [RegionsPlugin]) and of the pointer-drag recogniser
    ([makeDraggable]) and states the properties of their specification
    against that embedding.

    Numbers.  A JavaScript [number] is modelled by [num]: an exact rational,
    one of the two infinities, or NaN.  The special values are kept because
    the code meets them: [maxLength] defaults to [Infinity], a zero-width
    container makes [dx / width] infinite or NaN, and every comparison with
    NaN is false.  Rounding of finite results and the sign of zero are not
    modelled (a zero divisor is taken as [+0], which is what a measured width
    or a duration is). *)

From Stdlib Require Import QArith Qabs Lqa ZArith Lia Bool List String.
Import ListNotations.

(* ================================================================== *)
(** ** JavaScript numbers *)
(* ================================================================== *)

Module Num.

Inductive num : Type :=
| Fin (q : Q)
| PInf
| NInf
| NaN.

Definition zero : num := Fin 0.
Definition of_Z (z : Z) : num := Fin (inject_Z z).

(** Sign of a rational, as the comparison with zero. *)
Definition sgn (q : Q) : comparison := q ?= 0.

Definition neg (a : num) : num :=
  match a with
  | Fin q => Fin (- q)
  | PInf => NInf
  | NInf => PInf
  | NaN => NaN
  end.

Definition add (a b : num) : num :=
  match a, b with
  | NaN, _ | _, NaN => NaN
  | Fin x, Fin y => Fin (x + y)
  | PInf, NInf | NInf, PInf => NaN
  | PInf, _ | _, PInf => PInf
  | NInf, _ | _, NInf => NInf
  end.

Definition sub (a b : num) : num := add a (neg b).

(** An infinity of the sign given by a comparison with zero; [Eq] is the
    indeterminate form. *)
Definition inf_of_sign (c : comparison) : num :=
  match c with
  | Gt => PInf
  | Lt => NInf
  | Eq => NaN
  end.

Definition mul (a b : num) : num :=
  match a, b with
  | NaN, _ | _, NaN => NaN
  | Fin x, Fin y => Fin (x * y)
  | PInf, Fin y | Fin y, PInf => inf_of_sign (sgn y)
  | NInf, Fin y | Fin y, NInf => inf_of_sign (CompOpp (sgn y))
  | PInf, PInf | NInf, NInf => PInf
  | PInf, NInf | NInf, PInf => NInf
  end.

Definition div (a b : num) : num :=
  match a, b with
  | NaN, _ | _, NaN => NaN
  | Fin x, Fin y =>
      match sgn y with
      | Eq => inf_of_sign (sgn x)
      | _ => Fin (x / y)
      end
  | Fin _, (PInf | NInf) => Fin 0
  | (PInf | NInf), (PInf | NInf) => NaN
  | PInf, Fin y => match sgn y with Lt => NInf | _ => PInf end
  | NInf, Fin y => match sgn y with Lt => PInf | _ => NInf end
  end.

(** [<], [<=], [>], [>=]: false as soon as one side is NaN. *)
Definition ltb (a b : num) : bool :=
  match a, b with
  | NaN, _ | _, NaN => false
  | Fin x, Fin y => match x ?= y with Lt => true | _ => false end
  | NInf, (Fin _ | PInf) => true
  | Fin _, PInf => true
  | _, _ => false
  end.

Definition leb (a b : num) : bool :=
  match a, b with
  | NaN, _ | _, NaN => false
  | Fin x, Fin y => match x ?= y with Gt => false | _ => true end
  | NInf, _ => true
  | _, PInf => true
  | _, _ => false
  end.

Definition gtb (a b : num) : bool := ltb b a.
Definition geb (a b : num) : bool := leb b a.

(** [===] on numbers: NaN differs from itself. *)
Definition eqb (a b : num) : bool :=
  match a, b with
  | Fin x, Fin y => Qeq_bool x y
  | PInf, PInf | NInf, NInf => true
  | _, _ => false
  end.

(** [Math.min] and [Math.max] of two arguments: NaN if either is. *)
Definition min (a b : num) : num :=
  match a, b with
  | NaN, _ | _, NaN => NaN
  | _, _ => if leb a b then a else b
  end.

Definition max (a b : num) : num :=
  match a, b with
  | NaN, _ | _, NaN => NaN
  | _, _ => if leb a b then b else a
  end.

(** Truthiness of a number: [0] and NaN are falsy. *)
Definition truthy (a : num) : bool :=
  match a with
  | Fin q => negb (Qeq_bool q 0)
  | NaN => false
  | _ => true
  end.

(** The same value, rationals compared as numbers rather than as
    fractions written alike (NaN is the same value as NaN here: this is
    the relation for "the field did not change"). *)
Definition same (a b : num) : Prop :=
  match a, b with
  | Fin x, Fin y => x == y
  | PInf, PInf | NInf, NInf | NaN, NaN => True
  | _, _ => False
  end.

Definition sameb (a b : num) : bool :=
  match a, b with
  | Fin x, Fin y => Qeq_bool x y
  | PInf, PInf | NInf, NInf | NaN, NaN => true
  | _, _ => false
  end.

Definition is_fin (a : num) : bool :=
  match a with Fin _ => true | _ => false end.

Definition is_nan (a : num) : bool :=
  match a with NaN => true | _ => false end.

End Num.

Import Num.

Declare Scope num_scope.
Delimit Scope num_scope with num.
Bind Scope num_scope with num.
Infix "+" := Num.add : num_scope.
Infix "-" := Num.sub : num_scope.
Infix "*" := Num.mul : num_scope.
Infix "/" := Num.div : num_scope.
Infix "<?" := Num.ltb : num_scope.
Infix "<=?" := Num.leb : num_scope.
Infix ">?" := Num.gtb : num_scope.
Infix ">=?" := Num.geb : num_scope.
Infix "=~" := Num.same (at level 70, no associativity) : num_scope.

Local Open Scope string_scope.

(** [xs[i]] for an array and an integer index: [undefined] out of range,
    in particular at [-1]. *)
Definition js_index {A : Type} (xs : list A) (i : Z) : option A :=
  if (i <? 0)%Z then None else nth_error xs (Z.to_nat i).

(** [a ?? b] *)
Definition nullish {A : Type} (a : option A) (b : A) : A :=
  match a with
  | Some x => x
  | None => b
  end.

(* ================================================================== *)
(** ** The region class *)
(* ================================================================== *)

(** ['start' | 'end' | null]: which edge a sample resizes; [None] (the
    source's [null] or [undefined]) is a move of the whole region. *)
Inductive Side : Type := SideStart | SideEnd.

(** An element of [Region.regionsList]. *)
Record RegionEntry : Type := mkEntry {
  entry_start : num;
  entry_end : num;
  entry_content : string;
  entry_color : string;
  entry_drag : bool;
  entry_resize : bool
}.

(** The closure run by the interval that [runScrollAdjuster] installs. *)
Record Interval : Type := mkInterval {
  direction : bool;
  speed : num;
  interval_dx : num;
  interval_side : option Side
}.

Record RegionParams : Type := mkParams {
  params_id : option string;
  params_start : num;
  params_end : option num;
  params_drag : option bool;
  params_resize : option bool;
  params_color : option string;
  params_minLength : option num;
  params_maxLength : option num;
  params_channelIdx : option num
}.

(** The fields of a [Region] that its position logic reads or writes.
    [runScrollAdjuster_Interval] holds the live interval, if any: the only
    [setInterval] of the class is preceded by [clearInterval] on this very
    handle, so no interval of the region is live besides the one recorded
    here.  The element itself is not modelled; what the code reads from it
    comes in through [Dom]. *)
Record Region : Type := mkRegion {
  id : string;
  start : num;
  end_ : num;
  drag : bool;
  resize : bool;
  color : string;
  minLength : num;
  maxLength : num;
  channelIdx : num;
  regionsList : list RegionEntry;
  regionsListIndex : Z;
  startPercentPosition : num;
  endPercentPosition : num;
  totalDuration : num;
  runScrollAdjuster_Interval : option Interval
}.

(** The scrollable ancestor, as the browser reports it. *)
Record Scroller : Type := mkScroller {
  clientWidth : num;
  scrollWidth : num;
  scrollLeft : num;
  scroller_left : num
}.

(** What the code reads from the document during one call: the width of
    the regions container, whether the region's element is at present a
    child of it (the plugin takes the element of a region scrolled out of
    view off the container), the scrollable ancestor (if there is one) and
    the bounding box of the dragged element. *)
Record Dom : Type := mkDom {
  containerWidth : num;
  attached : bool;
  scrollContainer : option Scroller;
  bbox_left : num;
  bbox_right : num;
  bbox_width : num
}.

(** [this.element.parentElement], as the width [_onUpdate] reads from it;
    [None] is [null]. *)
Definition parentElement (dom : Dom) : option num :=
  if attached dom then Some (containerWidth dom) else None.

(** What a call does besides changing fields. *)
Inductive Effect : Type :=
| EmitUpdate (side : option Side) (dx : num)
| ConsoleLog (msg : string)
| ClearInterval
| SetInterval (i : Interval).

Definition set_position (r : Region) (s e sp ep : num) : Region :=
  mkRegion (id r) s e (drag r) (resize r) (color r) (minLength r)
    (maxLength r) (channelIdx r) (regionsList r) (regionsListIndex r)
    sp ep (totalDuration r) (runScrollAdjuster_Interval r).

Definition set_interval (r : Region) (i : option Interval) : Region :=
  mkRegion (id r) (start r) (end_ r) (drag r) (resize r) (color r)
    (minLength r) (maxLength r) (channelIdx r) (regionsList r)
    (regionsListIndex r) (startPercentPosition r) (endPercentPosition r)
    (totalDuration r) i.

Definition set_totalDuration (r : Region) (d : num) : Region :=
  mkRegion (id r) (start r) (end_ r) (drag r) (resize r) (color r)
    (minLength r) (maxLength r) (channelIdx r) (regionsList r)
    (regionsListIndex r) (startPercentPosition r) (endPercentPosition r)
    d (runScrollAdjuster_Interval r).

Definition set_flags (r : Region) (i : string) (d rs : bool) (c : string)
  : Region :=
  mkRegion i (start r) (end_ r) d rs c (minLength r) (maxLength r)
    (channelIdx r) (regionsList r) (regionsListIndex r)
    (startPercentPosition r) (endPercentPosition r) (totalDuration r)
    (runScrollAdjuster_Interval r).

Definition hundred : num := of_Z 100.

(** [clampPosition]: [Math.max(0, Math.min(this.totalDuration, time))]. *)
Definition clampPosition (total time : num) : num :=
  Num.max zero (Num.min total time).

(** The two percentages [renderPosition] stores. *)
Definition percentOfStart (total s : num) : num :=
  ((s / total) * hundred)%num.
Definition percentOfEnd (total e : num) : num :=
  (hundred - (((total - e) / total) * hundred))%num.

Definition renderPosition (r : Region) : Region :=
  set_position r (start r) (end_ r)
    (percentOfStart (totalDuration r) (start r))
    (percentOfEnd (totalDuration r) (end_ r)).

(** [new Region(params, totalDuration, numberOfChannels)]; [fresh] is the
    identifier drawn when [params.id] is absent or empty. *)
Definition new_Region (params : RegionParams) (total : num) (fresh : string)
  : Region :=
  let i := match params_id params with
           | Some s => if String.eqb s "" then fresh else s
           | None => fresh
           end in
  let s := clampPosition total (params_start params) in
  let e := clampPosition total
             (nullish (params_end params) (params_start params)) in
  renderPosition
    (mkRegion i s e
       (nullish (params_drag params) true)
       (nullish (params_resize params) true)
       (nullish (params_color params) "rgba(0, 0, 0, 0.1)")
       (nullish (params_minLength params) zero)
       (nullish (params_maxLength params) PInf)
       (nullish (params_channelIdx params) (of_Z (-1)))
       [] 0%Z
       (percentOfStart total s) (percentOfEnd total e)
       total None).

(** [0.000000001], the gap left to a neighbour. *)
Definition epsilon : num := Fin (1 # 1000000000).

(** The candidate position of one sample, with the length computed before
    any clamping and the overlap flag. *)
Record Candidate : Type := mkCandidate {
  newStart : num;
  newEnd : num;
  length : num;
  overlapWithAnotherRegion : bool
}.

Definition deltaSeconds (r : Region) (width dx : num) : num :=
  ((dx / width) * totalDuration r)%num.

Definition is_start (side : option Side) : bool :=
  match side with None | Some SideStart => true | _ => false end.
Definition is_end (side : option Side) : bool :=
  match side with None | Some SideEnd => true | _ => false end.

(** Lines 323-342 of [_onUpdate]: the shifted edges, then the clamp against
    the neighbours found in [regionsList]. *)
Definition candidate (r : Region) (width dx : num) (side : option Side)
  : Candidate :=
  let d := deltaSeconds r width dx in
  let newStart0 := if is_start side then (start r + d)%num else start r in
  let newEnd0 := if is_end side then (end_ r + d)%num else end_ r in
  let len := (newEnd0 - newStart0)%num in
  let unclamped := mkCandidate newStart0 newEnd0 len false in
  let against_next :=
    match js_index (regionsList r) (regionsListIndex r + 1) with
    | Some nxt =>
        if (newEnd0 >? entry_start nxt)%num then
          let newEnd1 := (entry_start nxt - epsilon)%num in
          let newStart1 :=
            match side with
            | Some _ => (newEnd1 - (newEnd1 - newStart0))%num
            | None => (newEnd1 - (end_ r - start r))%num
            end in
          mkCandidate newStart1 newEnd1 len true
        else unclamped
    | None => unclamped
    end in
  match regionsList r with
  | [] => unclamped
  | _ :: _ =>
      match js_index (regionsList r) (regionsListIndex r - 1) with
      | Some prv =>
          if (newStart0 <? entry_end prv)%num then
            let newStart1 := (entry_end prv + epsilon)%num in
            let newEnd1 :=
              match side with
              | Some _ => (newStart1 + (newEnd0 - newStart1))%num
              | None => (newStart1 + (end_ r - start r))%num
              end in
            mkCandidate newStart1 newEnd1 len true
          else against_next
      | None => against_next
      end
  end.

(** The test of lines 344-349. *)
Definition boundsAndLength (r : Region) (c : Candidate) : bool :=
  (newStart c >=? zero)%num
  && (newEnd c <=? totalDuration r)%num
  && (newStart c <=? newEnd c)%num
  && (length c >=? minLength r)%num
  && (length c <=? maxLength r)%num.

Definition accepted (r : Region) (c : Candidate) : bool :=
  overlapWithAnotherRegion c || boundsAndLength r c.

(** [stopRunScrollAdjuster] *)
Definition stopRunScrollAdjuster (r : Region) : Region * list Effect :=
  (set_interval r None, [ConsoleLog "stopRunScrollAdjuster"; ClearInterval]).

(** [_onUpdate(dx, side, element)] *)
Definition _onUpdate (r : Region) (dom : Dom) (dx : num) (side : option Side)
  : Region * list Effect :=
  match parentElement dom with
  | None => (r, [])
  | Some width =>
      let c := candidate r width dx side in
      let '(r1, fx1) :=
        if accepted r c then
          (renderPosition
             (set_position r (newStart c) (newEnd c)
                (startPercentPosition r) (endPercentPosition r)),
           [EmitUpdate side dx])
        else (r, []) in
      if overlapWithAnotherRegion c then
        let '(r2, fx2) := stopRunScrollAdjuster r1 in
        (r2, (fx1 ++ ConsoleLog "STOPPED BY OVERLAP" :: fx2)%list)
      else (r1, fx1)
  end.

Definition with_scrollLeft (dom : Dom) (sc : Scroller) (v : num) : Dom :=
  mkDom (containerWidth dom) (attached dom)
    (Some (mkScroller (clientWidth sc) (scrollWidth sc) v (scroller_left sc)))
    (bbox_left dom) (bbox_right dom) (bbox_width dom).

Definition fifteen : num := of_Z 15.
Definition hundredTwenty : num := of_Z 120.

(** [runScrollAdjuster(direction, speed, element, dx, side)] *)
Definition runScrollAdjuster (r : Region) (dom : Dom) (dir : bool)
  (spd dx : num) (side : option Side) : Region * list Effect :=
  let spd' := if (spd >? fifteen)%num then fifteen
              else if (spd <? Num.neg fifteen)%num then Num.neg fifteen
              else spd in
  let '(r1, fx) := stopRunScrollAdjuster r in
  match scrollContainer dom with
  | None => (r1, ConsoleLog "runScrollAdjuster " :: fx)
  | Some _ =>
      let i := mkInterval dir spd' dx side in
      (set_interval r1 (Some i),
       (ConsoleLog "runScrollAdjuster " :: fx ++ [SetInterval i])%list)
  end.

(** One firing of the interval callback installed by [runScrollAdjuster],
    every 30 ms while the interval is live.  A cleared interval fires no
    more. *)
Definition tick (r : Region) (dom : Dom) : Region * Dom * list Effect :=
  match runScrollAdjuster_Interval r, scrollContainer dom with
  | Some i, Some sc =>
      let '(r1, dom1, fx1) :=
        if direction i && (interval_dx i >? zero)%num
           && (scrollLeft sc <? scrollWidth sc)%num then
          let dom' := with_scrollLeft dom sc (scrollLeft sc - speed i)%num in
          let '(r', fx) := _onUpdate r dom' (Num.neg (speed i))
                             (interval_side i) in
          (r', dom', fx)
        else (r, dom, []) in
      match scrollContainer dom1 with
      | Some sc1 =>
          if negb (direction i) && (interval_dx i <? zero)%num
             && (scrollLeft sc1 >? zero)%num then
            let dom' :=
              with_scrollLeft dom1 sc1 (scrollLeft sc1 - speed i)%num in
            let '(r', fx) := _onUpdate r1 dom' (Num.neg (speed i))
                               (interval_side i) in
            (r', dom', (fx1 ++ fx)%list)
          else (r1, dom1, fx1)
      | None => (r1, dom1, fx1)
      end
  | _, _ => (r, dom, [])
  end.

(** [adjustScroll(dx, side, element)], for the element the drag recogniser
    passes on (never null there). *)
Definition adjustScroll (r : Region) (dom : Dom) (dx : num)
  (side : option Side) : Region * Dom * list Effect :=
  match scrollContainer dom with
  | None => (r, dom, [])
  | Some sc =>
      if (scrollWidth sc <=? clientWidth sc)%num then (r, dom, [])
      else
        let left := (bbox_left dom - scroller_left sc)%num in
        let right := (bbox_right dom - scroller_left sc)%num in
        match side with
        | Some _ =>
            if (left <? hundredTwenty)%num && (dx <? zero)%num then
              let '(r', fx) :=
                runScrollAdjuster r dom false (hundredTwenty - left)%num
                  dx side in
              (r', dom, fx)
            else if (right >? clientWidth sc - hundredTwenty)%num
                    && (dx >? zero)%num then
              let '(r', fx) :=
                runScrollAdjuster r dom true
                  (clientWidth sc - hundredTwenty - right)%num dx side in
              (r', dom, fx)
            else
              let '(r', fx) := stopRunScrollAdjuster r in (r', dom, fx)
        | None =>
            if (left <? zero)%num && (bbox_width dom <? clientWidth sc)%num
               && (dx <? zero)%num then
              (r, with_scrollLeft dom sc (scrollLeft sc + left)%num, [])
            else if (right >? clientWidth sc)%num
                    && (bbox_width dom <? clientWidth sc)%num
                    && (dx >? zero)%num then
              (r, with_scrollLeft dom sc
                    (scrollLeft sc + (right - clientWidth sc))%num, [])
            else
              let '(r', fx) := stopRunScrollAdjuster r in (r', dom, fx)
        end
  end.

(** [onMove(dx, element)] and [onResize(dx, side, element)] *)
Definition onMove (r : Region) (dom : Dom) (dx : num)
  : Region * Dom * list Effect :=
  if negb (drag r) then (r, dom, [])
  else
    let '(r1, fx1) := _onUpdate r dom dx None in
    let '(r2, dom2, fx2) := adjustScroll r1 dom dx None in
    (r2, dom2, (fx1 ++ fx2)%list).

Definition onResize (r : Region) (dom : Dom) (dx : num) (side : option Side)
  : Region * Dom * list Effect :=
  if negb (resize r) then (r, dom, [])
  else
    let '(r1, fx1) := _onUpdate r dom dx side in
    let '(r2, dom2, fx2) := adjustScroll r1 dom dx side in
    (r2, dom2, (fx1 ++ fx2)%list).

(** [documentMouseUpRegionsListener]: the document-level [mouseup]. *)
Definition documentMouseUpRegionsListener (r : Region)
  : Region * list Effect :=
  let '(r', fx) := stopRunScrollAdjuster r in
  (r', ConsoleLog "documentMouseUpRegionsListener" :: fx).

(** [_setTotalDuration(totalDuration)] *)
Definition _setTotalDuration (r : Region) (d : num) : Region :=
  renderPosition (set_totalDuration r d).

(** The options [setOptions] looks at. *)
Record RegionOptions : Type := mkOptions {
  options_color : option string;
  options_drag : option bool;
  options_start : option num;
  options_end : option num;
  options_id : option string;
  options_resize : option bool
}.

Definition truthy_string (s : option string) : option string :=
  match s with
  | Some x => if String.eqb x "" then None else Some x
  | None => None
  end.

(** [setOptions(options)] *)
Definition setOptions (r : Region) (o : RegionOptions) : Region :=
  let r1 := set_flags r (id r) (nullish (options_drag o) (drag r)) (resize r)
              (nullish (truthy_string (options_color o)) (color r)) in
  let r2 :=
    match options_start o, options_end o with
    | None, None => r1
    | _, _ =>
        let isMarker := Num.eqb (start r1) (end_ r1) in
        let s := clampPosition (totalDuration r1)
                   (nullish (options_start o) (start r1)) in
        let e := clampPosition (totalDuration r1)
                   (nullish (options_end o)
                      (if isMarker then s else end_ r1)) in
        renderPosition
          (set_position r1 s e
             (startPercentPosition r1) (endPercentPosition r1))
    end in
  set_flags r2 (nullish (truthy_string (options_id o)) (id r2)) (drag r2)
    (nullish (options_resize o) (resize r2)) (color r2).

(** The calls that reach a region once it is constructed: gesture
    callbacks, interval firings, the document [mouseup] listener and the
    public methods. *)
Inductive RegionCall : Type :=
| Call_onUpdate (dx : num) (side : option Side)
| Call_onMove (dx : num)
| Call_onResize (dx : num) (side : option Side)
| Call_adjustScroll (dx : num) (side : option Side)
| Call_runScrollAdjuster (dir : bool) (spd dx : num) (side : option Side)
| Call_stopRunScrollAdjuster
| Call_tick
| Call_documentMouseUp
| Call_setTotalDuration (d : num)
| Call_setOptions (o : RegionOptions)
| Call_renderPosition.

Definition call (r : Region) (dom : Dom) (c : RegionCall)
  : Region * Dom * list Effect :=
  match c with
  | Call_onUpdate dx side =>
      let '(r', fx) := _onUpdate r dom dx side in (r', dom, fx)
  | Call_onMove dx => onMove r dom dx
  | Call_onResize dx side => onResize r dom dx side
  | Call_adjustScroll dx side => adjustScroll r dom dx side
  | Call_runScrollAdjuster dir spd dx side =>
      let '(r', fx) := runScrollAdjuster r dom dir spd dx side in
      (r', dom, fx)
  | Call_stopRunScrollAdjuster =>
      let '(r', fx) := stopRunScrollAdjuster r in (r', dom, fx)
  | Call_tick => tick r dom
  | Call_documentMouseUp =>
      let '(r', fx) := documentMouseUpRegionsListener r in (r', dom, fx)
  | Call_setTotalDuration d => (_setTotalDuration r d, dom, [])
  | Call_setOptions o => (setOptions r o, dom, [])
  | Call_renderPosition => (renderPosition r, dom, [])
  end.

(** A history of a region: each call is made against the document as the
    browser shows it at that moment. *)
Fixpoint calls (r : Region) (cs : list (Dom * RegionCall)) : Region :=
  match cs with
  | [] => r
  | (dom, c) :: cs' => calls (fst (fst (call r dom c))) cs'
  end.

(* ================================================================== *)
(** ** The plugin *)
(* ================================================================== *)

(** What the plugin asks of the host player.  [this.wavesurfer] is
    [undefined] until the host initialises the plugin: the operations below
    take it as [option WaveSurfer]. *)
Record WaveSurfer : Type := mkWaveSurfer {
  getDuration : num;
  isPlaying : bool;
  wrapperIsElement : bool;
  wrapperWidth : num
}.

(** A call either returns or throws an [Error] with a message. *)
Inductive Outcome (A : Type) : Type :=
| Returned (a : A)
| Thrown (msg : string).
Arguments Returned {A} a.
Arguments Thrown {A} msg.

(** Regions are objects: the plugin, the gesture callbacks and the caller
    of [addRegion] hold the same one.  [heap] lists the objects made so far
    and a region is named by its position there. *)
Definition Ref : Type := nat.

(** The drag-to-create closure: its [region] and [startX] variables. *)
Record DragSelection : Type := mkDragSelection {
  selection_region : option Ref;
  selection_startX : num
}.

Record RegionsPlugin : Type := mkPlugin {
  heap : list Region;
  regions : list Ref;
  regionIn : option Ref;
  onceReady : list Ref;
  dragSelection : DragSelection
}.

Inductive PluginEvent : Type :=
| RegionCreated (r : Ref)
| RegionRemoved (r : Ref)
| RegionIn (r : Ref)
| RegionOut (r : Ref).

Definition is_in_or_out (e : PluginEvent) : bool :=
  match e with
  | RegionIn _ | RegionOut _ => true
  | _ => false
  end.

Definition new_RegionsPlugin : RegionsPlugin :=
  mkPlugin [] [] None [] (mkDragSelection None zero).

Definition deref (p : RegionsPlugin) (x : Ref) : option Region :=
  nth_error (heap p) x.

Fixpoint list_set {A : Type} (xs : list A) (n : nat) (a : A) : list A :=
  match xs, n with
  | [], _ => []
  | _ :: xs', O => a :: xs'
  | x :: xs', S n' => x :: list_set xs' n' a
  end.

Definition with_heap (p : RegionsPlugin) (h : list Region) : RegionsPlugin :=
  mkPlugin h (regions p) (regionIn p) (onceReady p) (dragSelection p).

Definition store (p : RegionsPlugin) (x : Ref) (r : Region) : RegionsPlugin :=
  with_heap p (list_set (heap p) x r).

Definition alloc (p : RegionsPlugin) (r : Region) : Ref * RegionsPlugin :=
  (List.length (heap p), with_heap p (heap p ++ [r])%list).

(** [saveRegion(region)]: the region joins [this.regions] and
    [region-created] is emitted. *)
Definition saveRegion (p : RegionsPlugin) (x : Ref)
  : RegionsPlugin * list PluginEvent :=
  (mkPlugin (heap p) (regions p ++ [x])%list (regionIn p) (onceReady p)
     (dragSelection p),
   [RegionCreated x]).

(** [addRegion(options)] *)
Definition addRegion (p : RegionsPlugin) (ws : option WaveSurfer)
  (options : RegionParams) (fresh : string)
  : Outcome (Ref * RegionsPlugin * list PluginEvent) :=
  match ws with
  | None => Thrown "WaveSurfer is not initialized"
  | Some w =>
      let duration := getDuration w in
      let '(x, p1) := alloc p (new_Region options duration fresh) in
      if negb (Num.truthy duration) then
        Returned
          (x,
           mkPlugin (heap p1) (regions p1) (regionIn p1)
             (onceReady p1 ++ [x])%list (dragSelection p1),
           [])
      else
        let '(p2, evs) := saveRegion p1 x in
        Returned (x, p2, evs)
  end.

(** Modelled from the spec: the host's event emitter is not among these
    sources; [once('ready', f)] is taken to run [f] once, with the
    duration, when the duration becomes available.  [runReady] is what the
    callbacks left by deferred [addRegion] calls then do, in order. *)
Fixpoint runReady (p : RegionsPlugin) (waiting : list Ref) (duration : num)
  : RegionsPlugin * list PluginEvent :=
  match waiting with
  | [] => (p, [])
  | x :: rest =>
      let p1 := match deref p x with
                | Some r => store p x (_setTotalDuration r duration)
                | None => p
                end in
      let '(p2, evs) := saveRegion p1 x in
      let '(p3, evs') := runReady p2 rest duration in
      (p3, (evs ++ evs')%list)
  end.

Definition ready (p : RegionsPlugin) (duration : num)
  : RegionsPlugin * list PluginEvent :=
  runReady
    (mkPlugin (heap p) (regions p) (regionIn p) [] (dragSelection p))
    (onceReady p) duration.

(** What [enableDragSelection] returns: a function that does nothing, or
    the disposer of the recogniser attached to the wrapper. *)
Inductive Disposer : Type :=
| Disposer_nothing
| Disposer_draggable (threshold : num).

(** [enableDragSelection(options, threshold)] *)
Definition enableDragSelection (ws : option WaveSurfer) (threshold : num)
  : Outcome Disposer :=
  match ws with
  | Some w =>
      if wrapperIsElement w then Returned (Disposer_draggable threshold)
      else Returned Disposer_nothing
  | None => Returned Disposer_nothing
  end.

Definition with_selection (p : RegionsPlugin) (d : DragSelection)
  : RegionsPlugin :=
  mkPlugin (heap p) (regions p) (regionIn p) (onceReady p) d.

Definition initialSize : num := of_Z 5.

(** The three callbacks [enableDragSelection] hands to the recogniser. *)
Definition selection_onStart (p : RegionsPlugin) (ws : option WaveSurfer)
  (options : RegionParams) (fresh : string) (x : num) : RegionsPlugin :=
  let p0 := with_selection p
              (mkDragSelection (selection_region (dragSelection p)) x) in
  match ws with
  | None => p0
  | Some w =>
      let duration := getDuration w in
      let s := ((x / wrapperWidth w) * duration)%num in
      let e := (((x + initialSize) / wrapperWidth w) * duration)%num in
      let params :=
        mkParams (params_id options) s (Some e) (params_drag options)
          (params_resize options) (params_color options)
          (params_minLength options) (params_maxLength options)
          (params_channelIdx options) in
      let '(ref, p1) := alloc p0 (new_Region params duration fresh) in
      with_selection p1 (mkDragSelection (Some ref) x)
  end.

Definition selection_onDrag (p : RegionsPlugin) (dom : Dom) (dx x : num)
  : RegionsPlugin * list Effect :=
  match selection_region (dragSelection p) with
  | Some ref =>
      match deref p ref with
      | Some r =>
          let side := if (x >? selection_startX (dragSelection p))%num
                      then SideEnd else SideStart in
          let '(r', fx) := _onUpdate r dom dx (Some side) in
          (store p ref r', fx)
      | None => (p, [])
      end
  | None => (p, [])
  end.

Definition selection_onEnd (p : RegionsPlugin)
  : RegionsPlugin * list PluginEvent :=
  match selection_region (dragSelection p) with
  | Some ref =>
      let '(p1, evs) := saveRegion p ref in
      (with_selection p1
         (mkDragSelection None (selection_startX (dragSelection p1))),
       evs)
  | None => (p, [])
  end.

(** The region, first in [this.regions], that contains the current time. *)
Definition contains (p : RegionsPlugin) (currentTime : num) (x : Ref) : bool :=
  match deref p x with
  | Some r => (currentTime >=? start r)%num && (currentTime <=? end_ r)%num
  | None => false
  end.

Definition same_ref (a : option Ref) (x : Ref) : bool :=
  match a with
  | Some y => Nat.eqb y x
  | None => false
  end.

(** The [timeupdate] handler installed by [onInit]. *)
Definition onTimeupdate (p : RegionsPlugin) (ws : option WaveSurfer)
  (currentTime : num) : RegionsPlugin * list PluginEvent :=
  let playing := match ws with Some w => isPlaying w | None => false end in
  if playing then
    match find (contains p currentTime) (regions p) with
    | Some x =>
        if negb (same_ref (regionIn p) x) then
          (mkPlugin (heap p) (regions p) (Some x) (onceReady p)
             (dragSelection p),
           [RegionIn x])
        else (p, [])
    | None =>
        match regionIn p with
        | Some old =>
            (mkPlugin (heap p) (regions p) None (onceReady p)
               (dragSelection p),
             [RegionOut old])
        | None => (p, [])
        end
    end
  else (p, []).

(** [region.remove()] as the plugin sees it, for a saved region. *)
Definition removeRegion (p : RegionsPlugin) (x : Ref)
  : RegionsPlugin * list PluginEvent :=
  if existsb (Nat.eqb x) (regions p) then
    (mkPlugin (heap p) (filter (fun y => negb (Nat.eqb y x)) (regions p))
       (regionIn p) (onceReady p) (dragSelection p),
     [RegionRemoved x])
  else (p, []).

(** Everything that can happen to the plugin, with the host as it stands
    when it happens. *)
Inductive PluginCall : Type :=
| Do_addRegion (options : RegionParams) (fresh : string)
| Do_ready (duration : num)
| Do_timeupdate (currentTime : num)
| Do_selectionStart (options : RegionParams) (fresh : string) (x : num)
| Do_selectionDrag (dom : Dom) (dx x : num)
| Do_selectionEnd
| Do_regionCall (x : Ref) (dom : Dom) (c : RegionCall)
| Do_removeRegion (x : Ref).

Definition step (p : RegionsPlugin) (ws : option WaveSurfer) (c : PluginCall)
  : RegionsPlugin * list PluginEvent :=
  match c with
  | Do_addRegion options fresh =>
      match addRegion p ws options fresh with
      | Returned (_, p', evs) => (p', evs)
      | Thrown _ => (p, [])
      end
  | Do_ready duration => ready p duration
  | Do_timeupdate t => onTimeupdate p ws t
  | Do_selectionStart options fresh x =>
      (selection_onStart p ws options fresh x, [])
  | Do_selectionDrag dom dx x => (fst (selection_onDrag p dom dx x), [])
  | Do_selectionEnd => selection_onEnd p
  | Do_regionCall x dom c =>
      match deref p x with
      | Some r => (store p x (fst (fst (call r dom c))), [])
      | None => (p, [])
      end
  | Do_removeRegion x => removeRegion p x
  end.

Fixpoint run (p : RegionsPlugin) (cs : list (option WaveSurfer * PluginCall))
  : RegionsPlugin * list PluginEvent :=
  match cs with
  | [] => (p, [])
  | (ws, c) :: cs' =>
      let '(p1, evs) := step p ws c in
      let '(p2, evs') := run p1 cs' in
      (p2, (evs ++ evs')%list)
  end.

(* ================================================================== *)
(** ** The drag recogniser *)
(* ================================================================== *)

Module Draggable.

Local Open Scope Q_scope.

Definition Qltb (a b : Q) : bool :=
  match a ?= b with Lt => true | _ => false end.

(** The arguments of [makeDraggable] after the callbacks, and what
    [matchMedia('(pointer: coarse)')] answered. *)
Record Config : Type := mkConfig {
  threshold : Q;
  mouseButton : Z;
  touchDelay : Z;
  side : option string;
  isTouchDevice : bool
}.

Definition defaults : Config := mkConfig 3 0 100 None false.

(** [!side]: [null] and the empty string. *)
Definition no_side (s : option string) : bool :=
  match s with
  | None => true
  | Some x => String.eqb x ""
  end.

Definition side_is (s : option string) (name : string) : bool :=
  match s with
  | Some x => String.eqb x name
  | None => false
  end.

(** [element.getBoundingClientRect()] *)
Record Rect : Type := mkRect {
  rect_left : Q;
  rect_top : Q;
  rect_right : Q
}.

(** A pointer event as the handlers meet it: its own fields, the clock
    ([Date.now()], in milliseconds) and the element's rectangle at that
    moment. *)
Record Sample : Type := mkSample {
  button : Z;
  clientX : Q;
  clientY : Q;
  now : Z;
  rect : Rect
}.

(** The variables of one press-to-release session. *)
Record Session : Type := mkSession {
  startX : Q;
  startY : Q;
  isDragging : bool;
  touchStartTime : Z;
  startXFromRectLeft : Q
}.

Inductive Callback : Type :=
| OnStart (x y : Q)
| OnDrag (dx dy x y : Q)
| OnEnd (x y : Q).

(** [onPointerDown]: no session for another button. *)
Definition onPointerDown (cfg : Config) (e : Sample) : option Session :=
  if negb (Z.eqb (button e) (mouseButton cfg)) then None
  else
    Some (mkSession (clientX e) (clientY e) false (now e)
            (if no_side (side cfg) then clientX e - rect_left (rect e)
             else 0)).

(** The pointer is beyond the element on the side it travels away from. *)
Definition crossed (dx x : Q) (rc : Rect) : bool :=
  (Qltb 0 dx && Qltb x (rect_left rc))
  || (Qltb dx 0 && Qltb (rect_right rc) x).

(** The [leaveEarlier] flag of one sample. *)
Definition leaveEarlier (cfg : Config) (s : Session) (dx x : Q) (rc : Rect)
  : bool :=
  if side_is (side cfg) "start" && crossed dx x rc then true
  else if side_is (side cfg) "end" && crossed dx x rc then true
  else if no_side (side cfg) then
    let currentStartXFromRectLeft := x - rect_left rc in
    (Qltb 0 dx && Qltb currentStartXFromRectLeft (startXFromRectLeft s))
    || (Qltb dx 0 && Qltb (startXFromRectLeft s) currentStartXFromRectLeft)
  else false.

Definition anchored (s : Session) (x y : Q) : Session :=
  mkSession x y true (touchStartTime s) (startXFromRectLeft s).

(** [onPointerMove] *)
Definition onPointerMove (cfg : Config) (s : Session) (e : Sample)
  : Session * list Callback :=
  if isTouchDevice cfg && (now e - touchStartTime s <? touchDelay cfg)%Z then
    (s, [])
  else
    let x := clientX e in
    let y := clientY e in
    let dx := x - startX s in
    let dy := y - startY s in
    if isDragging s || Qltb (threshold cfg) (Qabs dx)
       || Qltb (threshold cfg) (Qabs dy) then
      let rc := rect e in
      let started :=
        if isDragging s then []
        else [OnStart (startX s - rect_left rc) (startY s - rect_top rc)] in
      if leaveEarlier cfg s dx x rc then (anchored s x y, started)
      else
        (anchored s x y,
         (started ++ [OnDrag dx dy (x - rect_left rc) (y - rect_top rc)])%list)
    else (s, []).

(** [onPointerUp] *)
Definition onPointerUp (s : Session) (e : Sample) : list Callback :=
  if isDragging s then
    [OnEnd (clientX e - rect_left (rect e)) (clientY e - rect_top (rect e))]
  else [].

(** The move samples of a session, in arrival order. *)
Fixpoint moves (cfg : Config) (s : Session) (es : list Sample)
  : Session * list Callback :=
  match es with
  | [] => (s, [])
  | e :: es' =>
      let '(s1, cs) := onPointerMove cfg s e in
      let '(s2, cs') := moves cfg s1 es' in
      (s2, (cs ++ cs')%list)
  end.


End Draggable.

(* ================================================================== *)
(** ** What the properties speak of *)
(* ================================================================== *)

Definition is_update (e : Effect) : bool :=
  match e with
  | EmitUpdate _ _ => true
  | _ => false
  end.

(** How many [update] notifications a call emitted. *)
Definition updates (fx : list Effect) : nat :=
  List.length (filter is_update fx).

Definition stops_interval (fx : list Effect) : bool :=
  existsb (fun e => match e with ClearInterval => true | _ => false end) fx.

(** The candidate of a call, measured against the regions container. *)
Definition candidate_of (r : Region) (dom : Dom) (dx : num)
  (side : option Side) : Candidate :=
  candidate r (containerWidth dom) dx side.

(** An overlap event occurred in the call [_onUpdate(dx, side)]. *)
Definition overlap_event (r : Region) (dom : Dom) (dx : num)
  (side : option Side) : bool :=
  match parentElement dom with
  | Some width => overlapWithAnotherRegion (candidate r width dx side)
  | None => false
  end.

(** [0 <= start <= end <= totalDuration] *)
Definition invariant (r : Region) : bool :=
  (zero <=? start r)%num && (start r <=? end_ r)%num
  && (end_ r <=? totalDuration r)%num.

(** Each edge on its own lies in [[0, totalDuration]]. *)
Definition within (r : Region) : bool :=
  (zero <=? start r)%num && (start r <=? totalDuration r)%num
  && (zero <=? end_ r)%num && (end_ r <=? totalDuration r)%num.

(** The position [setOptions] is asked for: the given edges, the current
    ones where none is given (for a marker the end follows the start). *)
Definition requested_start (r : Region) (o : RegionOptions) : num :=
  nullish (options_start o) (start r).
Definition requested_end (r : Region) (o : RegionOptions) : num :=
  nullish (options_end o)
    (if Num.eqb (start r) (end_ r) then requested_start r o else end_ r).

Definition moves_position (o : RegionOptions) : bool :=
  match options_start o, options_end o with
  | None, None => false
  | _, _ => true
  end.

(** The position did not change, percentages included. *)
Definition position_kept (r r' : Region) : Prop :=
  start r' = start r /\ end_ r' = end_ r
  /\ startPercentPosition r' = startPercentPosition r
  /\ endPercentPosition r' = endPercentPosition r.

(** The candidate was stored and rendered. *)
Definition position_committed (r r' : Region) (c : Candidate) : Prop :=
  start r' = newStart c /\ end_ r' = newEnd c
  /\ startPercentPosition r' = percentOfStart (totalDuration r) (newStart c)
  /\ endPercentPosition r' = percentOfEnd (totalDuration r) (newEnd c).

(* ================================================================== *)
(** ** Scenarios *)
(* ================================================================== *)

Definition params_of (s e : Z) : RegionParams :=
  mkParams None (of_Z s) (Some (of_Z e)) None None None None None None.

(** A region [[s, e]] on a 100-second timeline. *)
Definition region_of (s e : Z) : Region :=
  new_Region (params_of s e) hundred "region".

(** A 500-pixel container holding the element, and the same container
    while the element is off it. *)
Definition container500 : Dom :=
  mkDom (of_Z 500) true None zero zero zero.
Definition detached500 : Dom :=
  mkDom (of_Z 500) false None zero zero zero.

Definition entry_of (s e : Z) : RegionEntry :=
  mkEntry (of_Z s) (of_Z e) "" "" true true.

(** A region told about its neighbours and with an autoscroll running. *)
Definition among (r : Region) (l : list RegionEntry) (i : Z) : Region :=
  mkRegion (id r) (start r) (end_ r) (drag r) (resize r) (color r)
    (minLength r) (maxLength r) (channelIdx r) l i
    (startPercentPosition r) (endPercentPosition r) (totalDuration r)
    (Some (mkInterval false fifteen (of_Z (-1)) (Some SideStart))).

Definition options_start_only (s : Z) : RegionOptions :=
  mkOptions None None (Some (of_Z s)) None None None.

(** The edges of a sample before any clamping. *)
Definition shiftedStart (r : Region) (width dx : num) (side : option Side)
  : num :=
  if is_start side then (start r + deltaSeconds r width dx)%num else start r.
Definition shiftedEnd (r : Region) (width dx : num) (side : option Side)
  : num :=
  if is_end side then (end_ r + deltaSeconds r width dx)%num else end_ r.

(** The current position, taken as a candidate. *)
Definition current (r : Region) : Candidate :=
  mkCandidate (start r) (end_ r) (end_ r - start r)%num false.

(** The acceptance condition, spelled out. *)
Definition acceptance (r : Region) (c : Candidate) : Prop :=
  overlapWithAnotherRegion c = true
  \/ ((newStart c >=? zero)%num = true
      /\ (newEnd c <=? totalDuration r)%num = true
      /\ (newStart c <=? newEnd c)%num = true
      /\ (minLength r <=? length c)%num = true
      /\ (length c <=? maxLength r)%num = true).

(** Scenario B: the region [[18, 30]], second of two, told that the first
    one is [[0, 20]]. *)
Definition regionB : Region :=
  among (region_of 18 30) [entry_of 0 20; entry_of 18 30] 1.




(** No region of the plugin has been told about neighbours. *)
Definition alone (p : RegionsPlugin) : Prop :=
  Forall (fun r => regionsList r = []) (heap p).

(** The host while it plays, while it is paused with the duration known,
    and before the duration is known. *)
Definition playing100 : WaveSurfer :=
  mkWaveSurfer hundred true true (of_Z 500).
Definition paused100 : WaveSurfer :=
  mkWaveSurfer hundred false true (of_Z 500).
Definition unloaded : WaveSurfer :=
  mkWaveSurfer zero false true (of_Z 500).

(** The plugin after [addRegion] of [[5, 10]] with the duration known. *)
Definition plugin_5_10 : RegionsPlugin :=
  fst (step new_RegionsPlugin (Some paused100)
         (Do_addRegion (params_of 5 10) "region")).

(** A page that scrolls: an 800-pixel viewport over 2000 pixels of content,
    scrolled by 300, the dragged handle 50 pixels from its left edge. *)
Definition scrolling500 : Dom :=
  mkDom (of_Z 500) true
    (Some (mkScroller (of_Z 800) (of_Z 2000) (of_Z 300) zero))
    (of_Z 50) (of_Z 63) (of_Z 13).

(* ================================================================== *)
(** ** Further operations of the sources *)
(* ================================================================== *)

From Stdlib Require Import Qround Permutation.

(** [Math.floor] and [Math.round] (the nearest integer, halves upwards). *)
Definition Math_floor (a : num) : num :=
  match a with
  | Fin q => Fin (inject_Z (Qfloor q))
  | _ => a
  end.

Definition Math_round (a : num) : num :=
  match a with
  | Fin q => Fin (inject_Z (Qfloor (q + (1 # 2))))
  | _ => a
  end.

(** The integer part of a rational, towards zero. *)
Definition Qtrunc (q : Q) : Z :=
  if Qle_bool 0 q then Qfloor q else Qceiling q.

(** [a % b]: the remainder has the sign of the dividend. *)
Definition rem (a b : num) : num :=
  match a, b with
  | NaN, _ | _, NaN => NaN
  | (PInf | NInf), _ => NaN
  | Fin x, (PInf | NInf) => Fin x
  | Fin x, Fin y =>
      if Qeq_bool y 0 then NaN
      else Fin (x - y * inject_Z (Qtrunc (x / y)))
  end.

(** [a || b] on numbers. *)
Definition or_else (a b : num) : num := if Num.truthy a then a else b.

(** What [x.toFixed(digits)] prints: ["NaN"], a signed ["Infinity"], a sign
    and the digits of the integer [n] with the point [digits] places from
    the right ([n] is the nearest integer to [|x| * 10^digits], halves
    upwards), or, from [1e21] on, the number as [toString] prints it.  Two
    results are the same string exactly when they are equal here. *)
Inductive Fixed : Type :=
| FixedNaN
| FixedInfinity (negative : bool)
| FixedDigits (negative : bool) (n : Z)
| FixedLarge (q : Q).

Definition ten_to (digits : nat) : Q := inject_Z (10 ^ Z.of_nat digits).

Definition toFixed (digits : nat) (a : num) : Fixed :=
  match a with
  | NaN => FixedNaN
  | PInf => FixedInfinity false
  | NInf => FixedInfinity true
  | Fin q =>
      if Qle_bool (ten_to 21) (Qabs q) then FixedLarge (Qred q)
      else FixedDigits (Draggable.Qltb q 0)
             (Qfloor (Qabs q * ten_to digits + (1 # 2)))
  end.

Definition Fixed_eqb (a b : Fixed) : bool :=
  match a, b with
  | FixedNaN, FixedNaN => true
  | FixedInfinity s, FixedInfinity t => Bool.eqb s t
  | FixedDigits s n, FixedDigits t m => Bool.eqb s t && Z.eqb n m
  | FixedLarge p, FixedLarge q =>
      Z.eqb (Qnum p) (Qnum q) && Pos.eqb (Qden p) (Qden q)
  | _, _ => false
  end.

(** [Number(s)] for a string printed by [toFixed(digits)]. *)
Definition Number_of (digits : nat) (f : Fixed) : num :=
  match f with
  | FixedNaN => NaN
  | FixedInfinity false => PInf
  | FixedInfinity true => NInf
  | FixedDigits s n =>
      Fin ((if s then - inject_Z n else inject_Z n) / ten_to digits)
  | FixedLarge q => Fin q
  end.

(** *** The region's element *)


(** The text [parseDuration] builds: the hours, printed with a colon
    after them only when positive; the minutes, with a ['0'] before them
    when below 10; a colon; the seconds to one decimal, with a ['0'] before
    them when they read below 10. *)
Record DurationText : Type := mkDurationText {
  text_hours : option num;
  text_minutes : num;
  text_minutes_padded : bool;
  text_secs : Fixed;
  text_secs_padded : bool
}.

Definition sixty : num := of_Z 60.
Definition ten : num := of_Z 10.

(** [parseDuration(seconds)] *)
Definition parseDuration (seconds : num) : DurationText :=
  let hours := Math_floor (seconds / of_Z 3600)%num in
  let minutes := Math_floor (rem seconds (of_Z 3600) / sixty)%num in
  let secs := toFixed 1 (rem seconds sixty) in
  mkDurationText
    (if (hours >? zero)%num then Some hours else None)
    minutes (minutes <? ten)%num
    secs (Number_of 1 secs <? ten)%num.

(** *** Autoscroll *)

(** The interval a call of [adjustScroll] leaves on the region. *)
Definition interval_after (out : Region * Dom * list Effect)
  : option Interval :=
  runScrollAdjuster_Interval (fst (fst out)).


Definition scrollLeft_of (dom : Dom) : option num :=
  match scrollContainer dom with
  | Some sc => Some (scrollLeft sc)
  | None => None
  end.

(** *** The plugin *)

(** The regions of [this.regions], as objects. *)
Definition regionObjects (p : RegionsPlugin) : list Region :=
  flat_map (fun x => match deref p x with Some r => [r] | None => [] end)
    (regions p).

(** [clearRegions()]: [remove()] on every region of the list as it stands
    at the call. *)
Fixpoint removeEach (p : RegionsPlugin) (xs : list Ref)
  : RegionsPlugin * list PluginEvent :=
  match xs with
  | [] => (p, [])
  | x :: xs' =>
      let '(p1, evs) := removeRegion p x in
      let '(p2, evs') := removeEach p1 xs' in
      (p2, (evs ++ evs')%list)
  end.

Definition clearRegions (p : RegionsPlugin)
  : RegionsPlugin * list PluginEvent :=
  removeEach p (regions p).

(** What [renderIfVisible] reads: the width of the viewport
    ([getWidth()]), the scroll offset ([getScroll()]), the width of the
    regions container and the duration. *)
Record View : Type := mkView {
  view_clientWidth : num;
  view_scrollLeft : num;
  view_scrollWidth : num;
  view_duration : num
}.

Definition startPixel (r : Region) (v : View) : num :=
  Math_round ((start r / view_duration v) * view_scrollWidth v)%num.

Definition widthPixels (r : Region) (v : View) : num :=
  or_else
    (Math_round (((end_ r - start r) / view_duration v)
                 * view_scrollWidth v)%num)
    (of_Z 1).

(** [renderIfVisible] inside [virtualAppend]: [true] when the element is
    put on the container, [false] when it is taken off. *)
Definition renderIfVisible (r : Region) (v : View) : bool :=
  (startPixel r v + widthPixels r v >? view_scrollLeft v)%num
  && (startPixel r v <? view_scrollLeft v + view_clientWidth v)%num.

(** *** The overlay *)

Inductive Colour : Type := dark | light.

(** Where a stop of the gradient stands: the literal [0%] or [100%], or a
    percentage printed by [toFixed(5)]. *)
Inductive StopAt : Type :=
| At0
| At100
| AtFixed (f : Fixed).

Definition Stop : Type := (Colour * StopAt)%type.

Definition startStop (r : Region) : StopAt :=
  AtFixed (toFixed 5 (startPercentPosition r)).
Definition endStop (r : Region) : StopAt :=
  AtFixed (toFixed 5 (endPercentPosition r)).

Definition StopAt_eqb (a b : StopAt) : bool :=
  match a, b with
  | At0, At0 | At100, At100 => true
  | AtFixed f, AtFixed g => Fixed_eqb f g
  | _, _ => false
  end.

(** The stops the callback of [forEach] adds for the first region, given
    the second one if there is one. *)
Definition firstStops (total : num) (r : Region) (next : option Region)
  : list Stop :=
  ((if Num.eqb (start r) zero then
      [(light, startStop r); (light, endStop r)]
    else
      [(dark, At0); (dark, startStop r); (light, startStop r);
       (light, endStop r)])
   ++ match next with
      | Some nxt =>
          if negb (Num.eqb (end_ r) total)
             && negb (StopAt_eqb (startStop nxt) (endStop r))
          then [(dark, endStop r)] else []
      | None => [(dark, endStop r); (dark, At100)]
      end)%list.

(** The stops it adds for a later region, given the one before it and
    whether it is the last. *)
Definition laterStops (total : num) (prev r : Region) (last : bool)
  : list Stop :=
  ((if negb (StopAt_eqb (endStop prev) (startStop r)) then
      [(dark, startStop r); (light, startStop r)]
    else [])
   ++ [(light, endStop r)]
   ++ (if negb (Num.eqb (end_ r) total) then [(dark, endStop r)] else [])
   ++ (if last && negb (Num.eqb (end_ r) total) then [(dark, At100)]
       else []))%list.

Definition is_nil {A : Type} (xs : list A) : bool :=
  match xs with [] => true | _ => false end.

Fixpoint stopsAfter (total : num) (prev : Region) (rs : list Region)
  : list Stop :=
  match rs with
  | [] => []
  | r :: rest =>
      (laterStops total prev r (is_nil rest) ++ stopsAfter total r rest)%list
  end.

(** The stops of the gradient [updateRegionsGreyedOut] writes, left to
    right; the style is [linear-gradient(to right, ...)] with each stop
    printed as its colour, its place and [%], joined by commas. *)
Definition gradientStops (total : num) (rs : list Region) : list Stop :=
  match rs with
  | [] => []
  | r :: rest =>
      (firstStops total r (hd_error rest) ++ stopsAfter total r rest)%list
  end.

(** [updateRegionsGreyedOut()] *)
Definition updateRegionsGreyedOut (p : RegionsPlugin)
  (ws : option WaveSurfer) : list Stop :=
  gradientStops (match ws with Some w => getDuration w | None => zero end)
    (regionObjects p).

(** *** What the further properties speak of *)

(** The stored percentages are those of the stored position. *)
Definition rendered (r : Region) : Prop :=
  startPercentPosition r = percentOfStart (totalDuration r) (start r)
  /\ endPercentPosition r = percentOfEnd (totalDuration r) (end_ r).

(** [0 <= startPercent <= endPercent <= 100] *)
Definition percentages_in_range (r : Region) : bool :=
  (zero <=? startPercentPosition r)%num
  && (startPercentPosition r <=? endPercentPosition r)%num
  && (endPercentPosition r <=? hundred)%num.


Definition options_none : RegionOptions :=
  mkOptions None None None None None None.

(** Following the [region-in] and [region-out] events of a history from
    the region currently in: a [region-in] must name another region than
    the current one and makes it current, a [region-out] must name the
    current one and leaves none.  [None] when an event breaks this. *)
Fixpoint follow (cur : option Ref) (evs : list PluginEvent)
  : option (option Ref) :=
  match evs with
  | [] => Some cur
  | RegionIn x :: evs' =>
      if same_ref cur x then None else follow (Some x) evs'
  | RegionOut x :: evs' =>
      if same_ref cur x then follow None evs' else None
  | _ :: evs' => follow cur evs'
  end.

(** The regions the plugin keeps track of: the one being drawn, those
    waiting for [ready], those saved. *)
Definition drawn (p : RegionsPlugin) : list Ref :=
  match selection_region (dragSelection p) with
  | Some x => [x]
  | None => []
  end.

Definition tracked (p : RegionsPlugin) : list Ref :=
  (drawn p ++ onceReady p ++ regions p)%list.

Definition well_tracked (p : RegionsPlugin) : Prop :=
  NoDup (tracked p)
  /\ forall x, In x (tracked p) -> (x < List.length (heap p))%nat.

(** The drag samples of one drag-to-create gesture. *)
Fixpoint selection_drags (p : RegionsPlugin)
  (ds : list (Dom * num * num)) : RegionsPlugin :=
  match ds with
  | [] => p
  | (dom, dx, x) :: ds' =>
      selection_drags (fst (selection_onDrag p dom dx x)) ds'
  end.

(** The plugin with [[5, 10]] saved and being played. *)
Definition plugin_in_5_10 : RegionsPlugin :=
  fst (step plugin_5_10 (Some playing100) (Do_timeupdate (of_Z 7))).

(** *** The drag recogniser *)

Definition is_OnStart (c : Draggable.Callback) : bool :=
  match c with
  | Draggable.OnStart _ _ => true
  | _ => false
  end.




(** A sample arrives within the touch delay of a touch screen. *)
Definition too_early (cfg : Draggable.Config) (s : Draggable.Session)
  (e : Draggable.Sample) : bool :=
  Draggable.isTouchDevice cfg
  && (Draggable.now e - Draggable.touchStartTime s
      <? Draggable.touchDelay cfg)%Z.

(** A sample lies within the threshold of the anchor, in both axes. *)
Definition within_threshold (cfg : Draggable.Config) (s : Draggable.Session)
  (e : Draggable.Sample) : Prop :=
  (Qabs (Draggable.clientX e - Draggable.startX s)
   <= Draggable.threshold cfg)%Q
  /\ (Qabs (Draggable.clientY e - Draggable.startY s)
      <= Draggable.threshold cfg)%Q.

(** A whole-element drag in a 200-pixel element grabbed 30 pixels from its
    left edge: pressed at 100, dragged to 110, then sampled at 112 when the
    element has run ahead to 90, so that the pointer is 22 pixels from the
    left edge, short of the grab point. *)
Definition move_config : Draggable.Config := Draggable.defaults.
Definition move_press : Draggable.Sample :=
  Draggable.mkSample 0 100 40 0 (Draggable.mkRect 70 0 270).
Definition move_first : Draggable.Sample :=
  Draggable.mkSample 0 110 40 20 (Draggable.mkRect 70 0 270).
Definition move_small : Draggable.Sample :=
  Draggable.mkSample 0 102 41 10 (Draggable.mkRect 70 0 270).




(** *** The overlay, read as a picture *)

(** The four stops of a region that stands clear of its neighbours: dark
    up to its start, light from its start to its end, dark again. *)
Definition band (r : Region) : list Stop :=
  [(dark, startStop r); (light, startStop r);
   (light, endStop r); (dark, endStop r)].

(** Each region starts at another place than the one where the region
    before it ends (as printed), and none ends at the total duration. *)
Fixpoint apart (total : num) (prev : Region) (rs : list Region) : Prop :=
  match rs with
  | [] => True
  | r :: rest =>
      StopAt_eqb (endStop prev) (startStop r) = false
      /\ Num.eqb (end_ r) total = false
      /\ apart total r rest
  end.

(** The place of a stop in units of [1e-5] percent, for the places
    between [0%] and [100%]. *)
Definition place (a : StopAt) : option Z :=
  match a with
  | At0 => Some 0%Z
  | At100 => Some (100 * 10 ^ 5)%Z
  | AtFixed (FixedDigits false n) => Some n
  | _ => None
  end.

(** The stops stand at places in [[from, 100%]], each at or after the one
    before. *)
Fixpoint ascending (from : Z) (stops : list Stop) : Prop :=
  match stops with
  | [] => True
  | (_, a) :: rest =>
      exists n, place a = Some n /\ (from <= n <= 100 * 10 ^ 5)%Z
                /\ ascending n rest
  end.

(** The regions follow each other from left to right: each has its
    percentages in range and starts no earlier than the one before it
    ends. *)
Fixpoint in_order (prev : Region) (rs : list Region) : Prop :=
  match rs with
  | [] => True
  | r :: rest =>
      (endPercentPosition prev <=? startPercentPosition r)%num = true
      /\ percentages_in_range r = true
      /\ in_order r rest
  end.

(** Scenario C: [[0, 10]] and [[40, 100]] on 100 seconds; and the same
    regions moved off the two ends of the timeline. *)
Definition scenarioC : list Region := [region_of 0 10; region_of 40 100].
Definition scenarioC_inside : list Region :=
  [region_of 5 10; region_of 40 90].

(** The nearest multiple of [1e-5] to a percentage, halves upwards, in
    units of [1e-5]. *)
Definition key (q : Q) : Z := Qfloor (q * ten_to 5 + (1 # 2)).

(** A view of 800 pixels over a container of 2000, not scrolled, on 100
    seconds. *)
Definition view800 : View :=
  mkView (of_Z 800) zero (of_Z 2000) hundred.

(* ================================================================== *)
(** ** Reasoning about numbers *)
(* ================================================================== *)

(** Every rational comparison in sight becomes a fact [lra] can use. *)
Ltac q_compare :=
  repeat match goal with
  | H : context [(?a ?= ?b)%Q] |- _ =>
      let E := fresh "E" in
      destruct (a ?= b)%Q eqn:E;
      [ apply Qeq_alt in E | apply Qlt_alt in E | apply Qgt_alt in E ]
  | |- context [(?a ?= ?b)%Q] =>
      let E := fresh "E" in
      destruct (a ?= b)%Q eqn:E;
      [ apply Qeq_alt in E | apply Qlt_alt in E | apply Qgt_alt in E ]
  end.

Ltac num_unfold :=
  unfold Num.geb, Num.gtb, Num.sub, Num.zero, Num.sgn, Num.of_Z in *.

Ltac num_crush :=
  num_unfold; simpl in *; q_compare; simpl in *;
  try discriminate; try tauto; try (exfalso; lra); try lra.

Lemma leb_Fin (a b : Q) : (Fin a <=? Fin b)%num = true <-> (a <= b)%Q.
Proof. split; intro H; num_crush. Qed.

Lemma ltb_Fin (a b : Q) : (Fin a <? Fin b)%num = true <-> (a < b)%Q.
Proof. split; intro H; num_crush. Qed.

Lemma same_refl (a : num) : (a =~ a)%num.
Proof. destruct a; simpl; auto. reflexivity. Qed.

Lemma same_sym (a b : num) : (a =~ b)%num -> (b =~ a)%num.
Proof. destruct a, b; simpl; auto. intro H; symmetry; exact H. Qed.


Lemma sameb_same (a b : num) : sameb a b = true <-> (a =~ b)%num.
Proof.
  destruct a, b; simpl; try (split; [discriminate | tauto]); try tauto.
  apply Qeq_bool_iff.
Qed.

Lemma leb_same (a a' b b' : num) :
  (a =~ a' -> b =~ b' -> (a <=? b) = (a' <=? b'))%num.
Proof.
  destruct a, a', b, b'; simpl; try tauto; intros; num_crush.
Qed.

Lemma add_same (a a' b b' : num) :
  (a =~ a' -> b =~ b' -> a + b =~ a' + b')%num.
Proof.
  destruct a, a', b, b'; simpl; try tauto; intros; num_crush.
Qed.

Lemma neg_same (a a' : num) : (a =~ a')%num -> (neg a =~ neg a')%num.
Proof. destruct a, a'; simpl; try tauto; intros; lra. Qed.

Lemma sub_same (a a' b b' : num) :
  (a =~ a' -> b =~ b' -> a - b =~ a' - b')%num.
Proof. intros; unfold sub; apply add_same; auto using neg_same. Qed.

(** Adding a rational zero changes nothing. *)
Lemma add_zero_same (a : num) (z : Q) : (z == 0)%Q -> (a + Fin z =~ a)%num.
Proof. destruct a; simpl; auto; intros; lra. Qed.

(** [0 / w * T] is a zero or NaN, whatever the width and the duration. *)
Lemma zero_delta (w T : num) :
  (exists z, ((zero / w) * T)%num = Fin z /\ (z == 0)%Q)
  \/ ((zero / w) * T)%num = NaN.
Proof.
  destruct w as [y| | |], T as [t| | |]; unfold zero; simpl; auto.
  all: unfold sgn.
  all: try (destruct (y ?= 0)%Q eqn:E; simpl; auto).
  all: try (left; eexists; split; [reflexivity|]).
  all: try (apply Qlt_alt in E || apply Qgt_alt in E).
  all: try (assert (0 / y == 0)%Q by (unfold Qdiv; lra)).
  all: try (unfold Qdiv; nra || lra).
  all: try (destruct (0 / y ?= 0)%Q eqn:E2; simpl; auto;
            (apply Qlt_alt in E2 || apply Qgt_alt in E2); exfalso; lra).
  all: try (destruct (t ?= 0)%Q; simpl; auto).
Qed.

(* ================================================================== *)
(** ** Clamping *)
(* ================================================================== *)

Lemma clamp_within (total t : num) :
  (zero <=? total)%num = true -> is_nan t = false ->
  (zero <=? clampPosition total t)%num = true
  /\ (clampPosition total t <=? total)%num = true.
Proof.
  unfold clampPosition.
  destruct total as [T| | |], t as [x| | |]; intros H0 Hn;
    try discriminate; simpl in *; num_unfold; simpl in *.
  all: repeat match goal with
       | |- context [if ?b then _ else _] => destruct b eqn:?; simpl
       end.
  all: split; num_crush.
Qed.

Lemma clamp_mono (total t1 t2 : num) :
  (zero <=? total)%num = true -> (t1 <=? t2)%num = true ->
  (clampPosition total t1 <=? clampPosition total t2)%num = true.
Proof.
  unfold clampPosition.
  destruct total as [T| | |], t1 as [x| | |], t2 as [y| | |]; intros H0 H;
    try discriminate; simpl in *; num_unfold; simpl in *.
  all: repeat match goal with
       | |- context [if ?b then _ else _] => destruct b eqn:?; simpl
       end.
  all: num_crush.
Qed.

Lemma clamp_idem (total t : num) :
  (clampPosition total (clampPosition total t) =~ clampPosition total t)%num.
Proof.
  unfold clampPosition.
  destruct total as [T| | |], t as [x| | |]; simpl; num_unfold; simpl; auto.
  all: repeat match goal with
       | |- context [if ?b then _ else _] => destruct b eqn:?; simpl
       end.
  all: num_crush.
Qed.

Lemma leb_not_nan_l (a b : num) : (a <=? b)%num = true -> is_nan a = false.
Proof. destruct a, b; simpl; auto; discriminate. Qed.

Lemma leb_refl_not_nan (a : num) : is_nan a = false -> (a <=? a)%num = true.
Proof. destruct a; simpl; auto; intros; num_crush. Qed.

(* ================================================================== *)
(** ** The shape of one update *)
(* ================================================================== *)

Lemma onUpdate_detached (r : Region) (dom : Dom) (dx : num)
  (side : option Side) :
  attached dom = false -> _onUpdate r dom dx side = (r, []).
Proof. intro H; unfold _onUpdate, parentElement; rewrite H; reflexivity. Qed.

(** Accepted: the candidate is stored and rendered, one notification goes
    out.  Dropped: nothing moves and nothing goes out. *)
Lemma onUpdate_attached (r : Region) (dom : Dom) (dx : num)
  (side : option Side) :
  attached dom = true ->
  let c := candidate_of r dom dx side in
  let r' := fst (_onUpdate r dom dx side) in
  let fx := snd (_onUpdate r dom dx side) in
  (accepted r c = true ->
     position_committed r r' c /\ updates fx = 1%nat
     /\ In (EmitUpdate side dx) fx)
  /\ (accepted r c = false -> position_kept r r' /\ updates fx = 0%nat)
  /\ (overlapWithAnotherRegion c = true ->
        runScrollAdjuster_Interval r' = None /\ stops_interval fx = true)
  /\ (overlapWithAnotherRegion c = false ->
        runScrollAdjuster_Interval r' = runScrollAdjuster_Interval r
        /\ stops_interval fx = false)
  /\ regionsList r' = regionsList r
  /\ regionsListIndex r' = regionsListIndex r
  /\ totalDuration r' = totalDuration r
  /\ minLength r' = minLength r /\ maxLength r' = maxLength r.
Proof.
  intros Ha c r' fx; subst r' fx.
  unfold _onUpdate, parentElement; rewrite Ha.
  fold (candidate_of r dom dx side); fold c.
  unfold position_committed, position_kept.
  destruct (accepted r c) eqn:Hacc, (overlapWithAnotherRegion c) eqn:Hov;
    simpl; repeat split; intros; try discriminate; auto.
Qed.

Lemma accepted_no_overlap (r : Region) (c : Candidate) :
  overlapWithAnotherRegion c = false -> accepted r c = boundsAndLength r c.
Proof. intro H; unfold accepted; rewrite H; reflexivity. Qed.

Lemma updates_onUpdate (r : Region) (dom : Dom) (dx : num)
  (side : option Side) :
  updates (snd (_onUpdate r dom dx side))
  = if attached dom && accepted r (candidate_of r dom dx side)
    then 1%nat else 0%nat.
Proof.
  destruct (attached dom) eqn:Ha.
  - destruct (onUpdate_attached r dom dx side Ha) as (H1 & H2 & _).
    destruct (accepted r (candidate_of r dom dx side)); simpl.
    + apply H1; reflexivity.
    + apply H2; reflexivity.
  - rewrite onUpdate_detached by assumption. reflexivity.
Qed.

(* ================================================================== *)
(** ** C1: bounds of the stored position *)
(* ================================================================== *)

Lemma new_Region_position (params : RegionParams) (total : num)
  (fresh : string) :
  let r := new_Region params total fresh in
  start r = clampPosition total (params_start params)
  /\ end_ r = clampPosition total
                (nullish (params_end params) (params_start params))
  /\ totalDuration r = total /\ regionsList r = []
  /\ regionsListIndex r = 0%Z /\ runScrollAdjuster_Interval r = None.
Proof. simpl; repeat split. Qed.

Lemma setOptions_position (r : Region) (o : RegionOptions) :
  moves_position o = true ->
  let r' := setOptions r o in
  start r' = clampPosition (totalDuration r) (requested_start r o)
  /\ end_ r' = clampPosition (totalDuration r)
                 (nullish (options_end o)
                    (if Num.eqb (start r) (end_ r)
                     then clampPosition (totalDuration r)
                            (requested_start r o)
                     else end_ r))
  /\ totalDuration r' = totalDuration r.
Proof.
  unfold moves_position, setOptions, requested_start.
  destruct (options_start o), (options_end o); intro H;
    try discriminate; simpl; repeat split.
Qed.

Lemma within_of (total s e : num) (r : Region) :
  start r = s -> end_ r = e -> totalDuration r = total ->
  (zero <=? s)%num = true -> (s <=? total)%num = true ->
  (zero <=? e)%num = true -> (e <=? total)%num = true ->
  within r = true.
Proof.
  intros Hs He Ht H1 H2 H3 H4; unfold within.
  rewrite Hs, He, Ht, H1, H2, H3, H4; reflexivity.
Qed.

Lemma invariant_of (r : Region) :
  within r = true -> (start r <=? end_ r)%num = true -> invariant r = true.
Proof.
  unfold within, invariant; intros H Hle.
  repeat (apply andb_prop in H; destruct H as [H ?]).
  rewrite H, Hle; simpl; assumption.
Qed.

(** C1 fails as stated: the constructor and [setOptions] clamp each edge
    into [[0, totalDuration]] but do not order the two.  A region asked for
    as [[10, 5]] is stored with start 10 and end 5, and moving the start of
    [[5, 10]] to 20 stores start 20 and end 10. *)
Lemma C1_counterexample :
  invariant (region_of 10 5) = false
  /\ invariant (region_of 5 10) = true
  /\ invariant (setOptions (region_of 5 10) (options_start_only 20)) = false.
Proof. repeat split; vm_compute; reflexivity. Qed.

(** A sample committed through an overlap clamp bypasses the bounds test:
    told of a previous neighbour ending at 20, the region [[18, 19]] has its
    start clamped to [20 + 1e-9], beyond its end. *)
Lemma overlap_commit_unchecked :
  let r := among (region_of 18 19) [entry_of 0 20; entry_of 18 19] 1 in
  let out := _onUpdate r container500 (of_Z (-50)) (Some SideStart) in
  updates (snd out) = 1%nat /\ invariant (fst out) = false.
Proof. split; vm_compute; reflexivity. Qed.

(** C1, amended.  After the constructor and after a [setOptions] that
    gives a start or an end, with a total duration that is at least 0 and
    requested edges that are numbers, both edges lie in
    [[0, totalDuration]], and [start <= end] as soon as the requested start
    is at most the requested end.  After a sample of [_onUpdate] that was
    accepted without an overlap event, [0 <= start <= end <= totalDuration]
    holds. *)
Theorem C1_committed_positions :
  (forall params total fresh,
      (zero <=? total)%num = true ->
      is_nan (params_start params) = false ->
      is_nan (nullish (params_end params) (params_start params)) = false ->
      let r := new_Region params total fresh in
      within r = true
      /\ ((params_start params
           <=? nullish (params_end params) (params_start params))%num = true
          -> invariant r = true))
  /\ (forall r o,
        moves_position o = true ->
        (zero <=? totalDuration r)%num = true ->
        is_nan (requested_start r o) = false ->
        is_nan (requested_end r o) = false ->
        let r' := setOptions r o in
        within r' = true
        /\ ((requested_start r o <=? requested_end r o)%num = true
            -> invariant r' = true))
  /\ (forall r dom dx side,
        overlap_event r dom dx side = false ->
        updates (snd (_onUpdate r dom dx side)) = 1%nat ->
        invariant (fst (_onUpdate r dom dx side)) = true).
Proof.
  split; [| split].
  - intros params total fresh H0 Hs He r.
    destruct (new_Region_position params total fresh)
      as (Es & Ee & Et & _).
    fold r in Es, Ee, Et.
    destruct (clamp_within total (params_start params) H0 Hs) as [A B].
    destruct (clamp_within total _ H0 He) as [C D].
    assert (W : within r = true) by (eapply within_of; eauto).
    split; [exact W |].
    intro Hle. apply invariant_of; [exact W |].
    rewrite Es, Ee. apply clamp_mono; assumption.
  - intros r o Hm H0 Hs He r'.
    destruct (setOptions_position r o Hm) as (Es & Ee & Et).
    fold r' in Es, Ee, Et.
    set (T := totalDuration r) in *.
    destruct (clamp_within T (requested_start r o) H0 Hs) as [A B].
    assert (Hn : is_nan
                   (nullish (options_end o)
                      (if Num.eqb (start r) (end_ r)
                       then clampPosition T (requested_start r o)
                       else end_ r)) = false).
    { unfold requested_end in He.
      destruct (options_end o); simpl in *; [exact He |].
      destruct (Num.eqb (start r) (end_ r)); [| exact He].
      eapply leb_not_nan_l; exact B. }
    destruct (clamp_within T _ H0 Hn) as [C D].
    assert (W : within r' = true) by (eapply within_of; eauto).
    split; [exact W |].
    intro Hle. apply invariant_of; [exact W |].
    rewrite Es, Ee. unfold requested_end in Hle.
    destruct (options_end o) as [e|]; simpl in *.
    + apply clamp_mono; assumption.
    + destruct (Num.eqb (start r) (end_ r)).
      * rewrite (leb_same _ (clampPosition T (requested_start r o))
                   _ (clampPosition T (requested_start r o))).
        -- apply leb_refl_not_nan. eapply leb_not_nan_l; exact B.
        -- apply same_refl.
        -- apply clamp_idem.
      * apply clamp_mono; assumption.
  - intros r dom dx side Hov Hup.
    rewrite updates_onUpdate in Hup.
    destruct (attached dom) eqn:Ha; [| discriminate].
    destruct (accepted r (candidate_of r dom dx side)) eqn:Hacc;
      [| discriminate].
    destruct (onUpdate_attached r dom dx side Ha)
      as (Hc & _ & _ & _ & _ & _ & Ht & _).
    destruct (Hc Hacc) as ((Es & Ee & _) & _).
    unfold overlap_event, parentElement in Hov. rewrite Ha in Hov.
    fold (candidate_of r dom dx side) in Hov.
    rewrite accepted_no_overlap in Hacc by exact Hov.
    unfold boundsAndLength in Hacc.
    repeat (apply andb_prop in Hacc; destruct Hacc as [Hacc ?]).
    unfold invariant. rewrite Es, Ee, Ht.
    unfold Num.geb in Hacc.
    rewrite Hacc; simpl.
    repeat (apply andb_true_intro; split); assumption.
Qed.

(** C1 at work: a region asked for as [[5, 10]], its start then moved to
    7, and the accepted move of it by 50 pixels. *)
Lemma C1_committed_positions_witness :
  invariant (region_of 5 10) = true
  /\ invariant (setOptions (region_of 5 10) (options_start_only 7)) = true
  /\ invariant (fst (_onUpdate (region_of 5 10) container500 (of_Z 50) None))
     = true.
Proof.
  destruct C1_committed_positions as (A & B & C).
  split; [| split].
  - apply (A (params_of 5 10) hundred "region"); reflexivity.
  - apply (B (region_of 5 10) (options_start_only 7)); reflexivity.
  - apply (C (region_of 5 10) container500 (of_Z 50) None); reflexivity.
Defined.

(* ================================================================== *)
(** ** C2: acceptance *)
(* ================================================================== *)

Lemma accepted_iff (r : Region) (c : Candidate) :
  accepted r c = true <-> acceptance r c.
Proof.
  unfold accepted, acceptance, boundsAndLength, Num.geb.
  rewrite orb_true_iff, !andb_true_iff. tauto.
Qed.

Lemma candidate_length (r : Region) (width dx : num) (side : option Side) :
  length (candidate r width dx side)
  = (shiftedEnd r width dx side - shiftedStart r width dx side)%num.
Proof.
  unfold candidate, shiftedEnd, shiftedStart.
  destruct (regionsList r); [reflexivity |].
  repeat match goal with
  | |- context [match js_index ?l ?i with _ => _ end] =>
      destruct (js_index l i)
  | |- context [if ?b then _ else _] =>
      lazymatch b with
      | is_start _ => fail
      | is_end _ => fail
      | _ => destruct b
      end
  end; reflexivity.
Qed.

Lemma candidate_no_overlap (r : Region) (width dx : num)
  (side : option Side) :
  overlapWithAnotherRegion (candidate r width dx side) = false ->
  candidate r width dx side
  = mkCandidate (shiftedStart r width dx side) (shiftedEnd r width dx side)
      (shiftedEnd r width dx side - shiftedStart r width dx side)%num false.
Proof.
  unfold candidate, shiftedEnd, shiftedStart.
  destruct (regionsList r); [reflexivity |].
  repeat match goal with
  | |- context [match js_index ?l ?i with _ => _ end] =>
      destruct (js_index l i)
  | |- context [if ?b then _ else _] =>
      lazymatch b with
      | is_start _ => fail
      | is_end _ => fail
      | _ => destruct b
      end
  end; simpl; intro H; try discriminate H; reflexivity.
Qed.

Lemma candidate_alone (r : Region) (width dx : num) (side : option Side) :
  regionsList r = [] ->
  overlapWithAnotherRegion (candidate r width dx side) = false.
Proof. intro H; unfold candidate; rewrite H; reflexivity. Qed.

(** C2 fails as stated: a call made while the element has no parent
    returns at once.  The move of [[5, 10]] by 50 pixels passes the
    acceptance test against the 500-pixel container, yet nothing is
    committed while the element is off it. *)
Lemma C2_counterexample :
  accepted (region_of 5 10)
    (candidate_of (region_of 5 10) detached500 (of_Z 50) None) = true
  /\ _onUpdate (region_of 5 10) detached500 (of_Z 50) None
     = (region_of 5 10, []).
Proof. split; vm_compute; reflexivity. Qed.

(** C2, amended.  For every call [_onUpdate(dx, side)] on a region whose
    element has a parent: the candidate is committed (stored, rendered and
    notified once) if an overlap event occurred or all of [newStart >= 0],
    [newEnd <= totalDuration], [newStart <= newEnd],
    [minLength <= length <= maxLength] hold, the length being that of the
    shifted edges before clamping; otherwise start, end and both
    percentages are unchanged and no notification goes out.  A call on a
    region whose element has no parent changes nothing and emits
    nothing. *)
Theorem C2_acceptance :
  (forall r dom dx side,
      attached dom = true ->
      let c := candidate_of r dom dx side in
      let r' := fst (_onUpdate r dom dx side) in
      let fx := snd (_onUpdate r dom dx side) in
      length c = (shiftedEnd r (containerWidth dom) dx side
                  - shiftedStart r (containerWidth dom) dx side)%num
      /\ (acceptance r c ->
            position_committed r r' c /\ updates fx = 1%nat)
      /\ (~ acceptance r c -> position_kept r r' /\ updates fx = 0%nat))
  /\ (forall r dom dx side,
        attached dom = false -> _onUpdate r dom dx side = (r, [])).
Proof.
  split.
  - intros r dom dx side Ha c r' fx.
    destruct (onUpdate_attached r dom dx side Ha) as (H1 & H2 & _).
    fold c r' fx in H1, H2.
    split; [apply candidate_length |].
    split.
    + intro Hacc. apply accepted_iff in Hacc.
      destruct (H1 Hacc) as (? & ? & _); auto.
    + intro Hn. apply H2.
      destruct (accepted r c) eqn:E; [| reflexivity].
      exfalso; apply Hn, accepted_iff, E.
  - intros; apply onUpdate_detached; assumption.
Qed.

(** C2 at work on the move of [[5, 10]] by 50 pixels in the container. *)
Lemma C2_acceptance_witness :
  attached container500 = true
  /\ updates (snd (_onUpdate (region_of 5 10) container500 (of_Z 50) None))
     = 1%nat
  /\ _onUpdate (region_of 5 10) detached500 (of_Z 50) None
     = (region_of 5 10, []).
Proof.
  destruct C2_acceptance as [A B].
  split; [reflexivity |]. split.
  - destruct (A (region_of 5 10) container500 (of_Z 50) None eq_refl)
      as (_ & Hc & _).
    apply Hc. right. repeat split; vm_compute; reflexivity.
  - apply B. reflexivity.
Defined.

(* ================================================================== *)
(** ** C3: a sample of zero pixels *)
(* ================================================================== *)

Lemma boundsAndLength_same (r : Region) (c c' : Candidate) :
  (newStart c =~ newStart c')%num -> (newEnd c =~ newEnd c')%num ->
  (length c =~ length c')%num ->
  boundsAndLength r c = boundsAndLength r c'.
Proof.
  intros Hs He Hl. unfold boundsAndLength, Num.geb.
  rewrite (leb_same zero zero (newStart c) (newStart c'))
    by (auto using same_refl).
  rewrite (leb_same (newEnd c) (newEnd c') (totalDuration r) (totalDuration r))
    by (auto using same_refl).
  rewrite (leb_same (newStart c) (newStart c') (newEnd c) (newEnd c'))
    by assumption.
  rewrite (leb_same (minLength r) (minLength r) (length c) (length c'))
    by (auto using same_refl).
  rewrite (leb_same (length c) (length c') (maxLength r) (maxLength r))
    by (auto using same_refl).
  reflexivity.
Qed.

Lemma add_nan_r (a : num) : (a + NaN)%num = NaN.
Proof. destruct a; reflexivity. Qed.

Lemma leb_nan_l (a : num) : (NaN <=? a)%num = false.
Proof. reflexivity. Qed.

(** With a shift that is NaN no candidate passes the test. *)
Lemma boundsAndLength_nan (r : Region) (width dx : num)
  (side : option Side) :
  deltaSeconds r width dx = NaN ->
  boundsAndLength r
    (mkCandidate (shiftedStart r width dx side) (shiftedEnd r width dx side)
       (shiftedEnd r width dx side - shiftedStart r width dx side)%num false)
  = false.
Proof.
  intro Hd. unfold boundsAndLength, shiftedStart, shiftedEnd, Num.geb; simpl.
  rewrite Hd.
  destruct side as [[|]|]; simpl; rewrite !add_nan_r.
  - reflexivity.
  - rewrite leb_nan_l, andb_false_r. reflexivity.
  - reflexivity.
Qed.

(** C3 fails as stated.  A sample of zero pixels on a region in a valid
    position is accepted like any other and notified; and when the current
    start already lies before the end of the previous neighbour, it is
    clamped even though the pointer did not move. *)
Lemma C3_counterexample :
  updates (snd (_onUpdate (region_of 5 10) container500 zero None)) = 1%nat
  /\ sameb
       (start (fst (_onUpdate regionB container500 zero (Some SideStart))))
       (start regionB) = false.
Proof. split; vm_compute; reflexivity. Qed.

(** C3, amended.  For every region and every side, [_onUpdate(0, side)]
    without an overlap event leaves start and end at their values; it does
    emit an [update] notification, exactly when the element has a parent,
    [0 / width * totalDuration] is a number and the current position passes
    the bounds-and-length test. *)
Theorem C3_zero_sample :
  forall r dom side,
    overlap_event r dom zero side = false ->
    let r' := fst (_onUpdate r dom zero side) in
    let fx := snd (_onUpdate r dom zero side) in
    (start r' =~ start r)%num /\ (end_ r' =~ end_ r)%num
    /\ updates fx
       = if attached dom
            && negb (is_nan (deltaSeconds r (containerWidth dom) zero))
            && boundsAndLength r (current r)
         then 1%nat else 0%nat.
Proof.
  intros r dom side Hov r' fx.
  destruct (attached dom) eqn:Ha.
  2:{ subst r' fx. rewrite onUpdate_detached by assumption.
      simpl. auto using same_refl. }
  unfold overlap_event, parentElement in Hov. rewrite Ha in Hov.
  pose proof (candidate_no_overlap r (containerWidth dom) zero side Hov)
    as Hc.
  destruct (onUpdate_attached r dom zero side Ha) as (H1 & H2 & _).
  fold r' fx in H1, H2. unfold candidate_of in H1, H2.
  rewrite accepted_no_overlap in H1, H2 by exact Hov.
  rewrite Hc in H1, H2. simpl andb.
  set (w := containerWidth dom) in *.
  destruct (zero_delta w (totalDuration r)) as [(z & Hz & Hz0) | Hnan];
    fold (deltaSeconds r w zero) in *.
  - (* the shift is a zero *)
    assert (Ss : (shiftedStart r w zero side =~ start r)%num).
    { unfold shiftedStart. rewrite Hz.
      destruct (is_start side); auto using add_zero_same, same_refl. }
    assert (Se : (shiftedEnd r w zero side =~ end_ r)%num).
    { unfold shiftedEnd. rewrite Hz.
      destruct (is_end side); auto using add_zero_same, same_refl. }
    rewrite Hz; simpl negb.
    rewrite (boundsAndLength_same r _ (current r)) in H1, H2
      by (simpl; auto using sub_same).
    destruct (boundsAndLength r (current r)).
    + destruct (H1 eq_refl) as ((Es & Ee & _) & Hu & _).
      simpl in Es, Ee. rewrite Es, Ee. auto.
    + destruct (H2 eq_refl) as ((Es & Ee & _) & Hu).
      rewrite Es, Ee. auto using same_refl.
  - (* the shift is NaN *)
    rewrite (boundsAndLength_nan r w zero side Hnan) in H2.
    destruct (H2 eq_refl) as ((Es & Ee & _) & Hu).
    rewrite Es, Ee, Hnan. simpl. auto using same_refl.
Qed.

(** C3 at work on [[5, 10]] in the container: nothing moves, and one
    notification is emitted. *)
Lemma C3_zero_sample_witness :
  overlap_event (region_of 5 10) container500 zero None = false
  /\ (start (fst (_onUpdate (region_of 5 10) container500 zero None))
      =~ start (region_of 5 10))%num
  /\ updates (snd (_onUpdate (region_of 5 10) container500 zero None))
     = 1%nat.
Proof.
  split; [reflexivity |].
  destruct (C3_zero_sample (region_of 5 10) container500 None eq_refl)
    as (Hs & _ & Hu).
  split; [exact Hs | exact Hu].
Defined.

(* ================================================================== *)
(** ** C4 and C5: the clamp against the previous neighbour *)
(* ================================================================== *)

Lemma js_index_nil (A : Type) (i : Z) : js_index (@nil A) i = None.
Proof.
  unfold js_index. destruct (i <? 0)%Z; [reflexivity |].
  destruct (Z.to_nat i); reflexivity.
Qed.

Lemma candidate_previous (r : Region) (width dx : num) (side : option Side)
  (prv : RegionEntry) :
  js_index (regionsList r) (regionsListIndex r - 1) = Some prv ->
  (shiftedStart r width dx side <? entry_end prv)%num = true ->
  let s := (entry_end prv + epsilon)%num in
  candidate r width dx side
  = mkCandidate s
      match side with
      | Some _ => (s + (shiftedEnd r width dx side - s))%num
      | None => (s + (end_ r - start r))%num
      end
      (shiftedEnd r width dx side - shiftedStart r width dx side)%num
      true.
Proof.
  intros Hp Hlt. unfold candidate.
  fold (deltaSeconds r width dx).
  fold (shiftedStart r width dx side) (shiftedEnd r width dx side).
  destruct (regionsList r) eqn:El.
  - rewrite js_index_nil in Hp. discriminate.
  - rewrite Hp, Hlt. reflexivity.
Qed.

Lemma untouched_end (e pe : Q) :
  ((Fin pe + epsilon) + (Fin e - (Fin pe + epsilon)) =~ Fin e)%num.
Proof. unfold epsilon; simpl. lra. Qed.

(** C4 fails as stated: in Scenario B the start is clamped to
    [20 + 1e-9] but the end stays at 30, so the length after the resize is
    [10 - 1e-9] and not the original 12. *)
Lemma C4_counterexample :
  let r' := fst (_onUpdate regionB container500 (of_Z (-50))
                   (Some SideStart)) in
  sameb (end_ regionB - start regionB)%num (of_Z 12) = true
  /\ sameb (start r') (of_Z 20 + epsilon)%num = true
  /\ sameb (end_ r') (of_Z 30) = true
  /\ sameb (end_ r' - start r')%num (of_Z 12) = false.
Proof. repeat split; vm_compute; reflexivity. Qed.

(** C4, amended.  When a region has a previous neighbour in its list and
    a sample would put its start before that neighbour's end, the start is
    clamped to the neighbour's end plus [1e-9]; on a resize the end is left
    as computed (for a resize of the start: where it was, so that the
    length is not preserved), on a move the end is recomputed as the new
    start plus the original length; the sample is committed as an overlap
    event and the region's interval is cleared.  So for B = [[18, 30]]
    behind A ending at 20, B becomes [[20 + 1e-9, 30]]. *)
Theorem C4_clamp_to_previous :
  forall r dom dx side prv,
    attached dom = true ->
    js_index (regionsList r) (regionsListIndex r - 1) = Some prv ->
    (shiftedStart r (containerWidth dom) dx side <? entry_end prv)%num
    = true ->
    let r' := fst (_onUpdate r dom dx side) in
    let fx := snd (_onUpdate r dom dx side) in
    start r' = (entry_end prv + epsilon)%num
    /\ (side = None -> end_ r' = (start r' + (end_ r - start r))%num)
    /\ (side = Some SideStart ->
        is_fin (end_ r) = true -> is_fin (entry_end prv) = true ->
        (end_ r' =~ end_ r)%num)
    /\ (side = Some SideEnd ->
        end_ r' = (start r' + (shiftedEnd r (containerWidth dom) dx side
                               - start r'))%num)
    /\ overlap_event r dom dx side = true
    /\ updates fx = 1%nat
    /\ runScrollAdjuster_Interval r' = None
    /\ stops_interval fx = true.
Proof.
  intros r dom dx side prv Ha Hp Hlt r' fx.
  pose proof (candidate_previous r (containerWidth dom) dx side prv Hp Hlt)
    as Hc. simpl in Hc.
  destruct (onUpdate_attached r dom dx side Ha) as (H1 & _ & H3 & _).
  fold r' fx in H1, H3. unfold candidate_of in H1, H3.
  assert (Hov : overlapWithAnotherRegion
                  (candidate r (containerWidth dom) dx side) = true)
    by (rewrite Hc; reflexivity).
  assert (Hacc : accepted r (candidate r (containerWidth dom) dx side) = true)
    by (unfold accepted; rewrite Hov; reflexivity).
  destruct (H1 Hacc) as ((Es & Ee & _) & Hu & _).
  destruct (H3 Hov) as (Hi & Hs).
  rewrite Hc in Es, Ee. simpl in Es, Ee.
  split; [exact Es |].
  split; [intros ->; rewrite Ee, Es; reflexivity |].
  split.
  { intros -> Hfe Hfp. rewrite Ee. unfold shiftedEnd; simpl.
    destruct (end_ r) as [e| | |]; try discriminate.
    destruct (entry_end prv) as [pe| | |]; try discriminate.
    apply untouched_end. }
  split; [intros ->; rewrite Ee, Es; reflexivity |].
  split.
  { unfold overlap_event, parentElement. rewrite Ha. exact Hov. }
  auto.
Qed.

(** C4 at work on Scenario B. *)
Lemma C4_clamp_to_previous_witness :
  let r' := fst (_onUpdate regionB container500 (of_Z (-50))
                   (Some SideStart)) in
  start r' = (of_Z 20 + epsilon)%num
  /\ (end_ r' =~ of_Z 30)%num
  /\ runScrollAdjuster_Interval regionB <> None
  /\ runScrollAdjuster_Interval r' = None.
Proof.
  destruct (C4_clamp_to_previous regionB container500 (of_Z (-50))
              (Some SideStart) (entry_of 0 20) eq_refl eq_refl eq_refl)
    as (Hs & _ & He & _ & _ & _ & Hi & _).
  split; [exact Hs |].
  split; [exact (He eq_refl eq_refl eq_refl) |].
  split; [discriminate | exact Hi].
Defined.

(** C5 fails as stated in its last part.  The handler of a resize sample
    calls [adjustScroll] after [_onUpdate], and near the edge of a scrolling
    page that call installs an interval anew.  In Scenario B on such a page
    the overlap event of the sample clears the interval, the same sample
    installs the next one, and its firing, after the clamp, scrolls by 15
    pixels (from 300 to 285). *)
Lemma C5_counterexample :
  let out := onResize regionB scrolling500 (of_Z (-50)) (Some SideStart) in
  let r' := fst (fst out) in
  overlap_event regionB scrolling500 (of_Z (-50)) (Some SideStart) = true
  /\ runScrollAdjuster_Interval r' <> None
  /\ match scrollContainer (snd (fst (tick r' scrolling500))) with
     | Some sc => sameb (scrollLeft sc) (of_Z 285)
     | None => false
     end = true.
Proof. repeat split; vm_compute; congruence. Qed.

(** C5, amended.  In every call of [_onUpdate] in which an overlap event
    occurs, [stopRunScrollAdjuster] runs before the call returns: the
    interval is cleared, whatever else is going on, and from the state the
    call leaves behind a firing of the interval callback does nothing, to
    the scroll offset or to the region.  (What the rest of the handler does
    after the call returns is not part of this.) *)
Theorem C5_overlap_stops_autoscroll :
  forall r dom dx side,
    overlap_event r dom dx side = true ->
    let r' := fst (_onUpdate r dom dx side) in
    let fx := snd (_onUpdate r dom dx side) in
    stops_interval fx = true
    /\ runScrollAdjuster_Interval r' = None
    /\ forall dom', tick r' dom' = (r', dom', []).
Proof.
  intros r dom dx side Hov r' fx.
  unfold overlap_event, parentElement in Hov.
  destruct (attached dom) eqn:Ha; [| discriminate].
  destruct (onUpdate_attached r dom dx side Ha) as (_ & _ & H3 & _).
  destruct (H3 Hov) as (Hi & Hs). fold r' in Hi. fold fx in Hs.
  split; [exact Hs |]. split; [exact Hi |].
  intro dom'. unfold tick. rewrite Hi. reflexivity.
Qed.

(** C5 at work on Scenario B, where an interval is live before the call
    and a firing would have scrolled. *)
Lemma C5_overlap_stops_autoscroll_witness :
  let r' := fst (_onUpdate regionB container500 (of_Z (-50))
                   (Some SideStart)) in
  overlap_event regionB container500 (of_Z (-50)) (Some SideStart) = true
  /\ runScrollAdjuster_Interval regionB <> None
  /\ runScrollAdjuster_Interval r' = None
  /\ tick r' container500 = (r', container500, []).
Proof.
  destruct (C5_overlap_stops_autoscroll regionB container500 (of_Z (-50))
              (Some SideStart) eq_refl) as (_ & Hi & Ht).
  split; [reflexivity |]. split; [discriminate |].
  split; [exact Hi | apply Ht].
Defined.


(* ================================================================== *)
(** ** C6: pixels to seconds *)
(* ================================================================== *)

(** C6.  A sample of [dx] pixels is a shift of
    [dx / width * totalDuration] seconds: for a region without neighbours
    whose element has a parent, a sample that passes the test commits the
    edges selected by the side, shifted by that much, and emits exactly one
    [update] notification and nothing else.  For [[5, 10]] alone on a
    100-second timeline in a 500-pixel container, a move by 50 pixels is a
    shift of 10 seconds, commits [[15, 20]] and emits exactly one [update]
    notification. *)
Theorem C6_pixels_to_seconds :
  (forall r dom dx side,
      attached dom = true -> regionsList r = [] ->
      let d := ((dx / containerWidth dom) * totalDuration r)%num in
      let s := if is_start side then (start r + d)%num else start r in
      let e := if is_end side then (end_ r + d)%num else end_ r in
      boundsAndLength r (mkCandidate s e (e - s)%num false) = true ->
      let out := _onUpdate r dom dx side in
      start (fst out) = s /\ end_ (fst out) = e
      /\ snd out = [EmitUpdate side dx])
  /\ (let r := region_of 5 10 in
      let out := _onUpdate r container500 (of_Z 50) None in
      (start r =~ of_Z 5)%num /\ (end_ r =~ of_Z 10)%num
      /\ regionsList r = []
      /\ (deltaSeconds r (of_Z 500) (of_Z 50) =~ of_Z 10)%num
      /\ (start (fst out) =~ of_Z 15)%num
      /\ (end_ (fst out) =~ of_Z 20)%num
      /\ snd out = [EmitUpdate None (of_Z 50)]
      /\ updates (snd out) = 1%nat).
Proof.
  split.
  - intros r dom dx side Ha Hl d s e Hb out. subst out.
    unfold _onUpdate, parentElement. rewrite Ha.
    pose proof (candidate_alone r (containerWidth dom) dx side Hl) as Hov.
    rewrite (candidate_no_overlap r (containerWidth dom) dx side Hov).
    unfold accepted, shiftedStart, shiftedEnd, deltaSeconds. simpl.
    fold d. fold s. fold e. rewrite Hb. simpl. auto.
  - repeat split; vm_compute; reflexivity.
Qed.

(** C6 at work on the scenario. *)
Lemma C6_pixels_to_seconds_witness :
  let out := _onUpdate (region_of 5 10) container500 (of_Z 50) None in
  start (fst out)
  = (start (region_of 5 10) + (of_Z 50 / of_Z 500) * hundred)%num
  /\ snd out = [EmitUpdate None (of_Z 50)].
Proof.
  destruct C6_pixels_to_seconds as (H & _).
  destruct (H (region_of 5 10) container500 (of_Z 50) None eq_refl eq_refl
              eq_refl) as (Hs & _ & Hf).
  split; [exact Hs | exact Hf].
Defined.

(* ================================================================== *)
(** ** C7: the directional lock of the drag recogniser *)
(* ================================================================== *)

Section DirectionalLock.

Import Draggable.

Variable cfg : Config.








End DirectionalLock.



(* ================================================================== *)
(** ** C8: creation before the host is ready *)
(* ================================================================== *)

Lemma list_set_length (A : Type) (xs : list A) :
  forall n a, List.length (list_set xs n a) = List.length xs.
Proof.
  induction xs as [| x xs IH]; intros [| n] a; simpl; auto.
Qed.

Lemma list_set_same (A : Type) (xs : list A) :
  forall n a, (n < List.length xs)%nat ->
              nth_error (list_set xs n a) n = Some a.
Proof.
  induction xs as [| x xs IH]; intros [| n] a H; simpl in *;
    try lia; auto.
  apply IH. lia.
Qed.

Lemma list_set_other (A : Type) (xs : list A) :
  forall n m a, n <> m -> nth_error (list_set xs n a) m = nth_error xs m.
Proof.
  induction xs as [| x xs IH]; intros [| n] [| m] a H; simpl;
    try congruence; auto.
Qed.

Lemma Forall_list_set (A : Type) (P : A -> Prop) (xs : list A) :
  forall n a, Forall P xs -> P a -> Forall P (list_set xs n a).
Proof.
  induction xs as [| x xs IH]; intros [| n] a H Ha; simpl; auto;
    inversion H; subst; constructor; auto.
Qed.

(** What the [ready] callbacks do, taken together. *)
Lemma runReady_spec (waiting : list Ref) :
  forall p d,
    let out := runReady p waiting d in
    regions (fst out) = (regions p ++ waiting)%list
    /\ snd out = map RegionCreated waiting
    /\ List.length (heap (fst out)) = List.length (heap p)
    /\ forall x,
         (x < List.length (heap p))%nat ->
         In x waiting
         \/ (exists r, deref p x = Some r /\ totalDuration r = d) ->
         exists r, deref (fst out) x = Some r /\ totalDuration r = d.
Proof.
  induction waiting as [| y rest IH]; intros p d; simpl.
  - rewrite app_nil_r. repeat split; auto.
    intros x _ [[] | H]. exact H.
  - set (p1 := match deref p y with
               | Some r => store p y (_setTotalDuration r d)
               | None => p
               end).
    assert (Hlen1 : List.length (heap p1) = List.length (heap p)).
    { subst p1. destruct (deref p y); [| reflexivity].
      simpl. apply list_set_length. }
    assert (Hreg1 : regions p1 = regions p).
    { subst p1. destruct (deref p y); reflexivity. }
    assert (Hkeep : forall x,
               (x < List.length (heap p))%nat ->
               x = y \/ (exists r, deref p x = Some r /\ totalDuration r = d)
               -> exists r, deref p1 x = Some r /\ totalDuration r = d).
    { intros x Hx Hor. subst p1. unfold deref in *.
      destruct (nth_error (heap p) y) as [ry |] eqn:Ey.
      - simpl. destruct (Nat.eq_dec y x) as [-> | Hne].
        + rewrite list_set_same by exact Hx. eauto.
        + rewrite list_set_other by exact Hne.
          destruct Hor as [-> | H]; [congruence | exact H].
      - destruct Hor as [-> | H]; [| exact H].
        apply nth_error_None in Ey. lia. }
    specialize (IH
      (mkPlugin (heap p1) (regions p1 ++ [y])%list (regionIn p1)
         (onceReady p1) (dragSelection p1)) d).
    simpl in IH.
    destruct (runReady _ rest d) as [p3 evs'] eqn:E3. simpl in *.
    destruct IH as (Hr & He & Hl & Hx).
    split; [rewrite Hr, Hreg1, <- app_assoc; reflexivity |].
    split; [rewrite He; reflexivity |].
    split; [lia |].
    intros x Hlt Hor. apply Hx; [lia |].
    destruct Hor as [[Hy | Hin] | H].
    + right. apply Hkeep; auto.
    + left. exact Hin.
    + right. apply Hkeep; auto.
Qed.

(** C8 fails as stated for drag-to-create: before the plugin has its host,
    [enableDragSelection] returns a disposer that does nothing; it does not
    throw. *)
Lemma C8_counterexample :
  enableDragSelection None (of_Z 3) = Returned Disposer_nothing
  /\ forall msg, enableDragSelection None (of_Z 3) <> Thrown msg.
Proof. split; [reflexivity | discriminate]. Qed.

(** C8, amended.  Before the plugin has its host, [addRegion] throws at
    once, while [enableDragSelection] returns normally, with a disposer
    that does nothing.  With the host there and the duration still unknown,
    [addRegion] returns the region without saving it, and the region is
    saved, with the duration then given, when the host's [ready] arrives.
    With the duration known the region is saved at once. *)
Theorem C8_creation_before_ready :
  (forall p options fresh,
      addRegion p None options fresh = Thrown "WaveSurfer is not initialized")
  /\ (forall threshold,
        enableDragSelection None threshold = Returned Disposer_nothing)
  /\ (forall p w options fresh,
        Num.truthy (getDuration w) = false ->
        let x := List.length (heap p) in
        exists p1,
          addRegion p (Some w) options fresh = Returned (x, p1, [])
          /\ regions p1 = regions p
          /\ deref p1 x = Some (new_Region options (getDuration w) fresh)
          /\ forall d,
               In x (regions (fst (ready p1 d)))
               /\ In (RegionCreated x) (snd (ready p1 d))
               /\ exists r, deref (fst (ready p1 d)) x = Some r
                            /\ totalDuration r = d)
  /\ (forall p w options fresh,
        Num.truthy (getDuration w) = true ->
        let x := List.length (heap p) in
        exists p1,
          addRegion p (Some w) options fresh
          = Returned (x, p1, [RegionCreated x])
          /\ In x (regions p1)).
Proof.
  split; [reflexivity |]. split; [reflexivity |]. split.
  - intros p w options fresh Hd x. unfold addRegion. simpl.
    rewrite Hd. simpl. eexists. split; [reflexivity |].
    split; [reflexivity |]. split.
    + unfold deref; simpl. fold x.
      rewrite nth_error_app2 by (subst x; lia).
      subst x. rewrite Nat.sub_diag. reflexivity.
    + intro d. unfold ready. simpl.
      match goal with
      | |- context [runReady ?q ?l d] =>
          destruct (runReady_spec l q d) as (Hr & He & _ & Hx)
      end.
      simpl in *. split; [rewrite Hr; fold x; auto using in_or_app, in_eq |].
      split.
      * rewrite He. apply in_map. fold x. apply in_or_app. right. apply in_eq.
      * apply Hx.
        -- rewrite length_app. simpl. fold x. lia.
        -- left. fold x. apply in_or_app. right. apply in_eq.
  - intros p w options fresh Hd x. unfold addRegion. simpl.
    rewrite Hd. simpl. eexists. split; [reflexivity |].
    simpl. apply in_or_app. right. apply in_eq.
Qed.

(** C8 at work: [addRegion] on a host whose duration is still unknown,
    then [ready] with 100 seconds. *)
Lemma C8_creation_before_ready_witness :
  Num.truthy (getDuration unloaded) = false
  /\ exists p1,
       addRegion new_RegionsPlugin (Some unloaded) (params_of 5 10) "region"
       = Returned (0%nat, p1, [])
       /\ regions p1 = []
       /\ In 0%nat (regions (fst (ready p1 hundred))).
Proof.
  split; [reflexivity |].
  destruct C8_creation_before_ready as (_ & _ & H & _).
  destruct (H new_RegionsPlugin unloaded (params_of 5 10) "region" eq_refl)
    as (p1 & Ha & Hr & _ & Hd).
  exists p1. split; [exact Ha |]. split; [exact Hr |].
  destruct (Hd hundred) as (Hin & _). exact Hin.
Defined.

(* ================================================================== *)
(** ** C9: nothing in the repository fills [regionsList] *)
(* ================================================================== *)

Lemma onUpdate_regionsList (r : Region) (dom : Dom) (dx : num)
  (side : option Side) :
  regionsList (fst (_onUpdate r dom dx side)) = regionsList r.
Proof.
  destruct (attached dom) eqn:Ha.
  - destruct (onUpdate_attached r dom dx side Ha)
      as (_ & _ & _ & _ & H & _). exact H.
  - rewrite onUpdate_detached by assumption. reflexivity.
Qed.

Lemma runScrollAdjuster_regionsList (r : Region) (dom : Dom) (dir : bool)
  (spd dx : num) (side : option Side) :
  regionsList (fst (runScrollAdjuster r dom dir spd dx side)) = regionsList r.
Proof.
  unfold runScrollAdjuster. simpl.
  destruct (scrollContainer dom); reflexivity.
Qed.

Lemma adjustScroll_regionsList (r : Region) (dom : Dom) (dx : num)
  (side : option Side) :
  regionsList (fst (fst (adjustScroll r dom dx side))) = regionsList r.
Proof.
  unfold adjustScroll.
  destruct (scrollContainer dom) as [sc |] eqn:Esc; [| reflexivity].
  destruct (scrollWidth sc <=? clientWidth sc)%num; [reflexivity |].
  destruct side.
  - repeat match goal with
    | |- context [if ?b then _ else _] => destruct b
    end; simpl; try reflexivity.
    + pose proof (runScrollAdjuster_regionsList r dom false
                    (hundredTwenty - (bbox_left dom - scroller_left sc))%num
                    dx (Some s)) as H.
      destruct (runScrollAdjuster _ _ _ _ _ _). exact H.
    + pose proof (runScrollAdjuster_regionsList r dom true
                    (clientWidth sc - hundredTwenty
                     - (bbox_right dom - scroller_left sc))%num
                    dx (Some s)) as H.
      destruct (runScrollAdjuster _ _ _ _ _ _). exact H.
  - repeat match goal with
    | |- context [if ?b then _ else _] => destruct b
    end; reflexivity.
Qed.

Lemma tick_regionsList (r : Region) (dom : Dom) :
  regionsList (fst (fst (tick r dom))) = regionsList r.
Proof.
  unfold tick.
  destruct (runScrollAdjuster_Interval r) as [i |]; [| reflexivity].
  destruct (scrollContainer dom) as [sc |]; [| reflexivity].
  match goal with
  | |- context [if ?b then _ else _] => destruct b
  end.
  - match goal with
    | |- context [_onUpdate r ?d ?x ?s] =>
        pose proof (onUpdate_regionsList r d x s) as H1;
        destruct (_onUpdate r d x s) as [r1 fx1]
    end.
    simpl in *.
    match goal with
    | |- context [if ?b then _ else _] => destruct b
    end; [| exact H1].
    match goal with
    | |- context [_onUpdate r1 ?d ?x ?s] =>
        pose proof (onUpdate_regionsList r1 d x s) as H2;
        destruct (_onUpdate r1 d x s) as [r2 fx2]
    end.
    simpl in *. congruence.
  - destruct (scrollContainer dom) as [sc1 |]; [| reflexivity].
    match goal with
    | |- context [if ?b then _ else _] => destruct b
    end; [| reflexivity].
    match goal with
    | |- context [_onUpdate r ?d ?x ?s] =>
        pose proof (onUpdate_regionsList r d x s) as H2;
        destruct (_onUpdate r d x s) as [r2 fx2]
    end.
    exact H2.
Qed.

Lemma setOptions_regionsList (r : Region) (o : RegionOptions) :
  regionsList (setOptions r o) = regionsList r.
Proof.
  unfold setOptions.
  destruct (options_start o), (options_end o); reflexivity.
Qed.

(** No call on a region writes its list of neighbours. *)
Lemma call_regionsList (r : Region) (dom : Dom) (c : RegionCall) :
  regionsList (fst (fst (call r dom c))) = regionsList r.
Proof.
  destruct c; simpl.
  - pose proof (onUpdate_regionsList r dom dx side) as H.
    destruct (_onUpdate r dom dx side). exact H.
  - unfold onMove. destruct (negb (drag r)); [reflexivity |].
    pose proof (onUpdate_regionsList r dom dx None) as H1.
    destruct (_onUpdate r dom dx None) as [r1 fx1].
    pose proof (adjustScroll_regionsList r1 dom dx None) as H2.
    destruct (adjustScroll r1 dom dx None) as [[r2 dom2] fx2].
    simpl in *. congruence.
  - unfold onResize. destruct (negb (resize r)); [reflexivity |].
    pose proof (onUpdate_regionsList r dom dx side) as H1.
    destruct (_onUpdate r dom dx side) as [r1 fx1].
    pose proof (adjustScroll_regionsList r1 dom dx side) as H2.
    destruct (adjustScroll r1 dom dx side) as [[r2 dom2] fx2].
    simpl in *. congruence.
  - apply adjustScroll_regionsList.
  - pose proof (runScrollAdjuster_regionsList r dom dir spd dx side) as H.
    destruct (runScrollAdjuster r dom dir spd dx side). exact H.
  - reflexivity.
  - apply tick_regionsList.
  - reflexivity.
  - reflexivity.
  - apply setOptions_regionsList.
  - reflexivity.
Qed.

Lemma calls_regionsList (cs : list (Dom * RegionCall)) :
  forall r, regionsList (calls r cs) = regionsList r.
Proof.
  induction cs as [| [dom c] cs IH]; intro r; simpl; [reflexivity |].
  rewrite IH. apply call_regionsList.
Qed.

Lemma alone_deref (p : RegionsPlugin) (x : Ref) (r : Region) :
  alone p -> deref p x = Some r -> regionsList r = [].
Proof.
  unfold alone, deref. intros H E.
  rewrite Forall_forall in H. apply H. eapply nth_error_In; eauto.
Qed.

Lemma alone_store (p : RegionsPlugin) (x : Ref) (r : Region) :
  alone p -> regionsList r = [] -> alone (store p x r).
Proof. unfold alone; simpl. intros; apply Forall_list_set; auto. Qed.

Lemma alone_alloc (p : RegionsPlugin) (r : Region) :
  alone p -> regionsList r = [] -> alone (snd (alloc p r)).
Proof.
  unfold alone; simpl. intros. apply Forall_app. split; auto.
Qed.

Lemma alone_heap (p q : RegionsPlugin) :
  heap q = heap p -> alone p -> alone q.
Proof. unfold alone. intros ->. auto. Qed.

Lemma runReady_alone (waiting : list Ref) :
  forall p d, alone p -> alone (fst (runReady p waiting d)).
Proof.
  induction waiting as [| y rest IH]; intros p d Hp; simpl; [exact Hp |].
  match goal with
  | |- context [runReady ?q rest d] =>
      assert (Hq : alone q); [| specialize (IH q d Hq);
                                destruct (runReady q rest d); exact IH]
  end.
  eapply alone_heap with
    (p := match deref p y with
          | Some r => store p y (_setTotalDuration r d)
          | None => p
          end); [reflexivity |].
  destruct (deref p y) as [r |] eqn:E; [| exact Hp].
  apply alone_store; [exact Hp |].
  simpl. eapply alone_deref; eauto.
Qed.

Lemma step_alone (p : RegionsPlugin) (ws : option WaveSurfer)
  (c : PluginCall) :
  alone p -> alone (fst (step p ws c)).
Proof.
  intro Hp. destruct c; simpl.
  - unfold addRegion. destruct ws as [w |]; [| exact Hp].
    pose proof (alone_alloc p (new_Region options (getDuration w) fresh) Hp
                  eq_refl) as Ha.
    simpl in *.
    destruct (negb (Num.truthy (getDuration w))); simpl; exact Ha.
  - unfold ready. apply runReady_alone. exact Hp.
  - unfold onTimeupdate.
    repeat match goal with
    | |- context [if ?b then _ else _] => destruct b
    | |- context [match ?o with Some _ => _ | None => _ end] => destruct o
    end; exact Hp.
  - unfold selection_onStart. destruct ws as [w |]; [| exact Hp].
    unfold alone. simpl. apply Forall_app. split; [exact Hp | auto].
  - unfold selection_onDrag.
    destruct (selection_region (dragSelection p)) as [ref |]; [| exact Hp].
    destruct (deref p ref) as [r |] eqn:E; [| exact Hp].
    match goal with
    | |- context [_onUpdate r ?d ?a ?s] =>
        pose proof (onUpdate_regionsList r d a s) as H;
        destruct (_onUpdate r d a s) as [r' fx]
    end.
    simpl in *. apply Forall_list_set; [exact Hp |].
    rewrite H. eapply alone_deref; eauto.
  - unfold selection_onEnd.
    destruct (selection_region (dragSelection p)); exact Hp.
  - destruct (deref p x) as [r |] eqn:E; [| exact Hp].
    simpl. apply Forall_list_set; [exact Hp |].
    rewrite call_regionsList. eapply alone_deref; eauto.
  - unfold removeRegion.
    destruct (existsb (Nat.eqb x) (regions p)); exact Hp.
Qed.

Lemma run_alone (cs : list (option WaveSurfer * PluginCall)) :
  forall p, alone p -> alone (fst (run p cs)).
Proof.
  induction cs as [| [ws c] cs IH]; intros p Hp; simpl; [exact Hp |].
  pose proof (step_alone p ws c Hp) as H1.
  destruct (step p ws c) as [p1 evs].
  specialize (IH p1 H1). destruct (run p1 cs). exact IH.
Qed.

(** C9.  A region made by the constructor has an empty [regionsList], and
    no call on it changes that.  So for every region the plugin holds,
    whatever has happened to the plugin since it was created, no call of
    [_onUpdate] meets an overlap event or clears the interval, and whether
    a sample is committed is decided by the bounds-and-length test alone
    (for an element that has a parent). *)
Theorem C9_no_neighbours :
  (forall params total fresh cs,
      regionsList (calls (new_Region params total fresh) cs) = [])
  /\ (forall cs x r,
        deref (fst (run new_RegionsPlugin cs)) x = Some r ->
        regionsList r = []
        /\ forall dom dx side,
             overlap_event r dom dx side = false
             /\ stops_interval (snd (_onUpdate r dom dx side)) = false
             /\ updates (snd (_onUpdate r dom dx side))
                = if attached dom
                     && boundsAndLength r (candidate_of r dom dx side)
                  then 1%nat else 0%nat).
Proof.
  split.
  - intros. rewrite calls_regionsList. reflexivity.
  - intros cs x r Hx.
    assert (Hr : regionsList r = []).
    { eapply alone_deref; [| exact Hx].
      apply run_alone. constructor. }
    split; [exact Hr |]. intros dom dx side.
    assert (Hc : overlapWithAnotherRegion (candidate_of r dom dx side)
                 = false) by (apply candidate_alone; exact Hr).
    split; [| split].
    + unfold overlap_event, parentElement.
      destruct (attached dom); [exact Hc | reflexivity].
    + destruct (attached dom) eqn:Ha.
      * destruct (onUpdate_attached r dom dx side Ha)
          as (_ & _ & _ & H4 & _).
        apply H4. exact Hc.
      * rewrite onUpdate_detached by assumption. reflexivity.
    + rewrite updates_onUpdate, accepted_no_overlap by exact Hc.
      reflexivity.
Qed.

(** C9 at work on the region that [addRegion] made for [[5, 10]]. *)
Lemma C9_no_neighbours_witness :
  exists r,
    deref plugin_5_10 0%nat = Some r
    /\ regionsList r = []
    /\ overlap_event r container500 (of_Z 50) None = false.
Proof.
  eexists. split; [reflexivity |].
  destruct C9_no_neighbours as (_ & H).
  destruct (H [(Some paused100, Do_addRegion (params_of 5 10) "region")]
              0%nat _ eq_refl) as (Hr & Hov).
  split; [exact Hr |].
  destruct (Hov container500 (of_Z 50) None) as (Ho & _). exact Ho.
Defined.

(* ================================================================== *)
(** ** C10: region-in and region-out *)
(* ================================================================== *)

Lemma created_not_in_or_out (xs : list Ref) :
  existsb is_in_or_out (map RegionCreated xs) = false.
Proof. induction xs; simpl; auto. Qed.

(** C10.  A [timeupdate] delivered while the host does not play (or has
    gone) emits nothing and leaves the plugin as it was, wherever the
    current time lies; and whenever some step of the plugin emits
    [region-in] or [region-out], that step is a [timeupdate] delivered
    while the host reports that it is playing. *)
Theorem C10_in_out_only_while_playing :
  (forall p ws t,
      match ws with Some w => isPlaying w | None => false end = false ->
      onTimeupdate p ws t = (p, []))
  /\ (forall p ws c,
        existsb is_in_or_out (snd (step p ws c)) = true ->
        exists t w, c = Do_timeupdate t /\ ws = Some w /\ isPlaying w = true).
Proof.
  split.
  - intros p ws t H. unfold onTimeupdate. rewrite H. reflexivity.
  - intros p ws c H. destruct c; simpl in H.
    + unfold addRegion in H. destruct ws as [w |]; [| discriminate].
      simpl in H.
      destruct (negb (Num.truthy (getDuration w))); discriminate.
    + unfold ready in H.
      match type of H with
      | context [runReady ?q ?l ?d] =>
          destruct (runReady_spec l q d) as (_ & He & _)
      end.
      rewrite He, created_not_in_or_out in H. discriminate.
    + exists currentTime. unfold onTimeupdate in H.
      destruct ws as [w |]; [| discriminate].
      destruct (isPlaying w) eqn:Ep; [| discriminate].
      exists w. auto.
    + discriminate.
    + discriminate.
    + unfold selection_onEnd in H.
      destruct (selection_region (dragSelection p)); discriminate.
    + destruct (deref p x); discriminate.
    + unfold removeRegion in H.
      destruct (existsb (Nat.eqb x) (regions p)); discriminate.
Qed.

(** C10 at work: inside [[5, 10]] at 7 seconds, the paused host yields no
    event, the playing host yields [region-in]. *)
Lemma C10_in_out_only_while_playing_witness :
  isPlaying paused100 = false
  /\ onTimeupdate plugin_5_10 (Some paused100) (of_Z 7) = (plugin_5_10, [])
  /\ snd (step plugin_5_10 (Some playing100) (Do_timeupdate (of_Z 7)))
     = [RegionIn 0%nat]
  /\ exists t w,
       Do_timeupdate (of_Z 7) = Do_timeupdate t
       /\ Some playing100 = Some w /\ isPlaying w = true.
Proof.
  destruct C10_in_out_only_while_playing as (A & B).
  split; [reflexivity |].
  split; [apply A; reflexivity |].
  split; [reflexivity |].
  apply (B plugin_5_10 (Some playing100) (Do_timeupdate (of_Z 7))).
  reflexivity.
Defined.

(* ================================================================== *)
(** ** Further properties: the region *)
(* ================================================================== *)

(** X1.  [clampPosition], for a total duration that is at least 0: a time
    within [[0, totalDuration]] is returned as it is, a negative time gives
    0, a time beyond the total duration gives the total duration, and
    clamping twice is clamping once. *)
Theorem clampPosition_saturates :
  forall total t,
    (zero <=? total)%num = true ->
    ((zero <=? t)%num = true -> (t <=? total)%num = true ->
     (clampPosition total t =~ t)%num)
    /\ ((t <? zero)%num = true -> clampPosition total t = zero)
    /\ ((total <? t)%num = true -> (clampPosition total t =~ total)%num)
    /\ (clampPosition total (clampPosition total t)
        =~ clampPosition total t)%num.
Proof.
  intros total t H0. repeat split.
  - unfold clampPosition.
    destruct total as [T| | |], t as [x| | |]; intros H1 H2;
      try discriminate; simpl in *; num_unfold; simpl in *.
    all: repeat match goal with
         | |- context [if ?b then _ else _] => destruct b eqn:?; simpl
         end.
    all: num_crush.
  - unfold clampPosition.
    destruct total as [T| | |], t as [x| | |]; intros H1;
      try discriminate; simpl in *; num_unfold; simpl in *.
    all: repeat match goal with
         | |- context [if ?b then _ else _] => destruct b eqn:?; simpl
         end.
    all: try reflexivity; num_crush.
  - unfold clampPosition.
    destruct total as [T| | |], t as [x| | |]; intros H1;
      try discriminate; simpl in *; num_unfold; simpl in *.
    all: repeat match goal with
         | |- context [if ?b then _ else _] => destruct b eqn:?; simpl
         end.
    all: num_crush.
  - apply clamp_idem.
Qed.

Lemma clampPosition_saturates_witness :
  (clampPosition hundred (of_Z 42) =~ of_Z 42)%num
  /\ clampPosition hundred (of_Z (-3)) = zero
  /\ (clampPosition hundred (of_Z 250) =~ hundred)%num.
Proof.
  destruct (clampPosition_saturates hundred (of_Z 42) eq_refl)
    as (A & _).
  destruct (clampPosition_saturates hundred (of_Z (-3)) eq_refl)
    as (_ & B & _).
  destruct (clampPosition_saturates hundred (of_Z 250) eq_refl)
    as (_ & _ & C & _).
  split; [apply A; reflexivity |].
  split; [apply B; reflexivity | apply C; reflexivity].
Defined.






(** A property of regions that the setters keep is kept by every call. *)
Section Preserved.

Variable P : Region -> Prop.
Hypothesis P_interval : forall r i, P r -> P (set_interval r i).
Hypothesis P_commit :
  forall r s e, P r ->
    P (renderPosition
         (set_position r s e (startPercentPosition r)
            (endPercentPosition r))).
Hypothesis P_render : forall r, P r -> P (renderPosition r).
Hypothesis P_total : forall r d, P r -> P (_setTotalDuration r d).
Hypothesis P_options : forall r o, P r -> P (setOptions r o).

Lemma onUpdate_preserves (r : Region) (dom : Dom) (dx : num)
  (side : option Side) :
  P r -> P (fst (_onUpdate r dom dx side)).
Proof.
  intro H. unfold _onUpdate.
  destruct (parentElement dom) as [w |]; [| exact H].
  destruct (accepted r (candidate r w dx side)),
    (overlapWithAnotherRegion (candidate r w dx side)); simpl; auto.
Qed.

Lemma runScrollAdjuster_preserves (r : Region) (dom : Dom) (dir : bool)
  (spd dx : num) (side : option Side) :
  P r -> P (fst (runScrollAdjuster r dom dir spd dx side)).
Proof.
  intro H. unfold runScrollAdjuster. simpl.
  destruct (scrollContainer dom); simpl; auto.
Qed.

Lemma adjustScroll_preserves (r : Region) (dom : Dom) (dx : num)
  (side : option Side) :
  P r -> P (fst (fst (adjustScroll r dom dx side))).
Proof.
  intro H. unfold adjustScroll.
  destruct (scrollContainer dom) as [sc |] eqn:Esc; [| exact H].
  destruct (scrollWidth sc <=? clientWidth sc)%num; [exact H |].
  destruct side as [s |].
  - repeat match goal with
    | |- context [if ?b then _ else _] => destruct b
    end; simpl; auto.
    + pose proof (runScrollAdjuster_preserves r dom false
                    (hundredTwenty - (bbox_left dom - scroller_left sc))%num
                    dx (Some s) H) as H1.
      destruct (runScrollAdjuster _ _ _ _ _ _). exact H1.
    + pose proof (runScrollAdjuster_preserves r dom true
                    (clientWidth sc - hundredTwenty
                     - (bbox_right dom - scroller_left sc))%num
                    dx (Some s) H) as H1.
      destruct (runScrollAdjuster _ _ _ _ _ _). exact H1.
  - repeat match goal with
    | |- context [if ?b then _ else _] => destruct b
    end; simpl; auto.
Qed.

Lemma tick_preserves (r : Region) (dom : Dom) :
  P r -> P (fst (fst (tick r dom))).
Proof.
  intro H. unfold tick.
  destruct (runScrollAdjuster_Interval r) as [i |]; [| exact H].
  destruct (scrollContainer dom) as [sc |]; [| exact H].
  match goal with
  | |- context [if ?b then _ else _] => destruct b
  end.
  - match goal with
    | |- context [_onUpdate r ?d ?x ?s] =>
        pose proof (onUpdate_preserves r d x s H) as H1;
        destruct (_onUpdate r d x s) as [r1 fx1]
    end.
    simpl in *.
    match goal with
    | |- context [if ?b then _ else _] => destruct b
    end; [| exact H1].
    match goal with
    | |- context [_onUpdate r1 ?d ?x ?s] =>
        pose proof (onUpdate_preserves r1 d x s H1) as H2;
        destruct (_onUpdate r1 d x s) as [r2 fx2]
    end.
    exact H2.
  - destruct (scrollContainer dom) as [sc1 |]; [| exact H].
    match goal with
    | |- context [if ?b then _ else _] => destruct b
    end; [| exact H].
    match goal with
    | |- context [_onUpdate r ?d ?x ?s] =>
        pose proof (onUpdate_preserves r d x s H) as H2;
        destruct (_onUpdate r d x s) as [r2 fx2]
    end.
    exact H2.
Qed.

Lemma call_preserves (r : Region) (dom : Dom) (c : RegionCall) :
  P r -> P (fst (fst (call r dom c))).
Proof.
  intro H. destruct c; simpl; auto.
  - pose proof (onUpdate_preserves r dom dx side H) as H1.
    destruct (_onUpdate r dom dx side). exact H1.
  - unfold onMove. destruct (negb (drag r)); [exact H |].
    pose proof (onUpdate_preserves r dom dx None H) as H1.
    destruct (_onUpdate r dom dx None) as [r1 fx1].
    pose proof (adjustScroll_preserves r1 dom dx None H1) as H2.
    destruct (adjustScroll r1 dom dx None) as [[r2 dom2] fx2]. exact H2.
  - unfold onResize. destruct (negb (resize r)); [exact H |].
    pose proof (onUpdate_preserves r dom dx side H) as H1.
    destruct (_onUpdate r dom dx side) as [r1 fx1].
    pose proof (adjustScroll_preserves r1 dom dx side H1) as H2.
    destruct (adjustScroll r1 dom dx side) as [[r2 dom2] fx2]. exact H2.
  - apply adjustScroll_preserves; exact H.
  - pose proof (runScrollAdjuster_preserves r dom dir spd dx side H) as H1.
    destruct (runScrollAdjuster r dom dir spd dx side). exact H1.
  - apply tick_preserves; exact H.
Qed.

Lemma calls_preserve (cs : list (Dom * RegionCall)) :
  forall r, P r -> P (calls r cs).
Proof.
  induction cs as [| [dom c] cs IH]; intros r H; simpl; [exact H |].
  apply IH. apply call_preserves. exact H.
Qed.

End Preserved.

Lemma rendered_renderPosition (r : Region) : rendered (renderPosition r).
Proof. split; reflexivity. Qed.

Lemma rendered_setOptions (r : Region) (o : RegionOptions) :
  rendered r -> rendered (setOptions r o).
Proof.
  intros [H1 H2]. unfold setOptions.
  destruct (options_start o), (options_end o); split; simpl; auto.
Qed.

(** X3.  The percentages a region stores are always those of its stored
    position and total duration: the constructor leaves it so, and every
    call that can reach the region afterwards (samples, autoscroll,
    interval firings, [setOptions], [_setTotalDuration]) keeps it so. *)
Theorem percentages_follow_position :
  forall params total fresh cs,
    rendered (calls (new_Region params total fresh) cs).
Proof.
  intros. apply calls_preserve.
  - intros r i [H1 H2]. split; exact H1 || exact H2.
  - intros r s e _. apply rendered_renderPosition.
  - intros r _. apply rendered_renderPosition.
  - intros r d _. apply rendered_renderPosition.
  - apply rendered_setOptions.
  - apply rendered_renderPosition.
Qed.







(** X5.  On a region without neighbours a resize touches its own edge
    only: a sample on the start handle leaves the end as it is, a sample on
    the end handle leaves the start as it is. *)
Theorem resize_keeps_other_edge :
  forall r dom dx,
    regionsList r = [] ->
    end_ (fst (_onUpdate r dom dx (Some SideStart))) = end_ r
    /\ start (fst (_onUpdate r dom dx (Some SideEnd))) = start r.
Proof.
  intros r dom dx Hl.
  destruct (attached dom) eqn:Ha.
  2:{ rewrite !onUpdate_detached by assumption. auto. }
  split.
  - destruct (onUpdate_attached r dom dx (Some SideStart) Ha)
      as (H1 & H2 & _).
    unfold candidate_of in *.
    rewrite (candidate_no_overlap r _ dx (Some SideStart)
               (candidate_alone r _ dx (Some SideStart) Hl)) in *.
    destruct (accepted r _).
    + destruct (H1 eq_refl) as ((_ & Ee & _) & _). exact Ee.
    + destruct (H2 eq_refl) as ((_ & Ee & _) & _). exact Ee.
  - destruct (onUpdate_attached r dom dx (Some SideEnd) Ha)
      as (H1 & H2 & _).
    unfold candidate_of in *.
    rewrite (candidate_no_overlap r _ dx (Some SideEnd)
               (candidate_alone r _ dx (Some SideEnd) Hl)) in *.
    destruct (accepted r _).
    + destruct (H1 eq_refl) as ((Es & _) & _). exact Es.
    + destruct (H2 eq_refl) as ((Es & _) & _). exact Es.
Qed.

Lemma resize_keeps_other_edge_witness :
  end_ (fst (_onUpdate (region_of 5 10) container500 (of_Z 10)
               (Some SideStart)))
  = end_ (region_of 5 10).
Proof.
  apply (resize_keeps_other_edge (region_of 5 10) container500 (of_Z 10)).
  reflexivity.
Defined.

(** X6.  After a sample accepted without an overlap event the length of
    the region lies between [minLength] and [maxLength]. *)
Theorem accepted_length_within_limits :
  forall r dom dx side,
    overlap_event r dom dx side = false ->
    updates (snd (_onUpdate r dom dx side)) = 1%nat ->
    let r' := fst (_onUpdate r dom dx side) in
    (minLength r' <=? end_ r' - start r')%num = true
    /\ (end_ r' - start r' <=? maxLength r')%num = true.
Proof.
  intros r dom dx side Hov Hup r'. subst r'.
  rewrite updates_onUpdate in Hup.
  destruct (attached dom) eqn:Ha; [| discriminate].
  destruct (accepted r (candidate_of r dom dx side)) eqn:Hacc;
    [| discriminate].
  destruct (onUpdate_attached r dom dx side Ha)
    as (Hc & _ & _ & _ & _ & _ & _ & Hmin & Hmax).
  destruct (Hc Hacc) as ((Es & Ee & _) & _).
  unfold overlap_event, parentElement in Hov. rewrite Ha in Hov.
  unfold candidate_of in *.
  rewrite accepted_no_overlap in Hacc by exact Hov.
  rewrite (candidate_no_overlap r _ dx side Hov) in *.
  unfold boundsAndLength, Num.geb in Hacc. simpl in *.
  repeat (apply andb_prop in Hacc; destruct Hacc as [Hacc ?]).
  rewrite Es, Ee, Hmin, Hmax. auto.
Qed.

Lemma accepted_length_within_limits_witness :
  let r' := fst (_onUpdate (region_of 5 10) container500 (of_Z 50) None) in
  (minLength r' <=? end_ r' - start r')%num = true.
Proof.
  destruct (accepted_length_within_limits (region_of 5 10) container500
              (of_Z 50) None eq_refl eq_refl) as (H & _).
  exact H.
Defined.

Lemma eqb_same (a b : num) :
  (a =~ b)%num -> is_nan a = false -> Num.eqb a b = true.
Proof.
  destruct a, b; simpl; try tauto; try discriminate.
  intros H _. apply Qeq_bool_iff. exact H.
Qed.

(** X7.  A marker stays a marker when [setOptions] gives it a new start
    and no end: the end follows the start (with a total duration that is at
    least 0 and a start that is a number). *)
Theorem setOptions_moves_marker :
  forall r o s,
    Num.eqb (start r) (end_ r) = true ->
    options_start o = Some s -> options_end o = None ->
    is_nan s = false -> (zero <=? totalDuration r)%num = true ->
    let r' := setOptions r o in
    Num.eqb (start r') (end_ r') = true
    /\ start r' = clampPosition (totalDuration r) s.
Proof.
  intros r o s Hm Hs He Hn H0. cbv zeta.
  assert (Hmv : moves_position o = true)
    by (unfold moves_position; rewrite Hs; reflexivity).
  destruct (setOptions_position r o Hmv) as (Es & Ee & _).
  unfold requested_start in Es, Ee. rewrite Hs in Es, Ee.
  rewrite He, Hm in Ee. cbn [nullish] in Es, Ee.
  rewrite Es, Ee. split; [| reflexivity].
  apply eqb_same.
  - apply same_sym, clamp_idem.
  - destruct (clamp_within (totalDuration r) s H0 Hn) as [A _].
    destruct (clampPosition (totalDuration r) s); try reflexivity.
    discriminate.
Qed.

Lemma setOptions_moves_marker_witness :
  let r' := setOptions (region_of 5 5) (options_start_only 7) in
  Num.eqb (start r') (end_ r') = true.
Proof.
  destruct (setOptions_moves_marker (region_of 5 5) (options_start_only 7)
              (of_Z 7) eq_refl eq_refl eq_refl eq_refl eq_refl) as (H & _).
  exact H.
Defined.

(* ================================================================== *)
(** ** Further properties: autoscroll *)
(* ================================================================== *)

Ltac num_crush_Z := unfold inject_Z in *; num_crush.

Lemma speed_limited (spd : num) :
  is_nan spd = false ->
  let spd' := if (spd >? fifteen)%num then fifteen
              else if (spd <? Num.neg fifteen)%num then Num.neg fifteen
              else spd in
  (Num.neg fifteen <=? spd')%num = true /\ (spd' <=? fifteen)%num = true
  /\ ((zero <? spd)%num = true -> (zero <? spd')%num = true)
  /\ ((spd <? zero)%num = true -> (spd' <? zero)%num = true).
Proof.
  destruct spd as [q| | |]; intro Hn; try discriminate;
    unfold fifteen, of_Z; simpl; num_unfold; simpl.
  - repeat match goal with
    | |- context [if ?b then _ else _] => destruct b eqn:?; simpl
    end; repeat split; intros; num_crush_Z.
  - repeat split; intros; num_crush_Z.
  - repeat split; intros; num_crush_Z.
Qed.



Lemma sub_positive (a b : num) :
  (b <? a)%num = true -> (zero <? a - b)%num = true.
Proof. destruct a, b; intro H; num_crush. Qed.

Lemma sub_negative (a b : num) :
  (a <? b)%num = true -> (a - b <? zero)%num = true.
Proof. destruct a, b; intro H; num_crush. Qed.

Lemma ltb_not_nan (a b : num) :
  (a <? b)%num = true -> is_nan (b - a)%num = false.
Proof. destruct a, b; intro H; try discriminate; reflexivity. Qed.

Lemma ltb_not_nan' (a b : num) :
  (a <? b)%num = true -> is_nan (a - b)%num = false.
Proof. destruct a, b; intro H; try discriminate; reflexivity. Qed.

(** X9.  [adjustScroll] for a resize handle on a page that overflows its
    viewport never touches the scroll offset itself, and the interval it
    leaves always scrolls the way the handle travels: dragged to the left
    within 120 pixels of the left edge, an interval towards the start with
    a speed in [(0, 15]]; otherwise, dragged to the right within 120 pixels
    of the right edge, an interval towards the end with a speed in
    [[-15, 0)]; otherwise no interval at all. *)
Theorem adjustScroll_handle_interval :
  forall r dom dx sd sc,
    scrollContainer dom = Some sc ->
    (scrollWidth sc <=? clientWidth sc)%num = false ->
    let out := adjustScroll r dom dx (Some sd) in
    let left := (bbox_left dom - scroller_left sc)%num in
    let right := (bbox_right dom - scroller_left sc)%num in
    snd (fst out) = dom
    /\ stops_interval (snd out) = true
    /\ match interval_after out with
       | Some i =>
           interval_dx i = dx /\ interval_side i = Some sd
           /\ (((left <? hundredTwenty)%num && (dx <? zero)%num = true
                /\ direction i = false
                /\ (zero <? speed i)%num = true
                /\ (speed i <=? fifteen)%num = true)
               \/ ((right >? clientWidth sc - hundredTwenty)%num
                   && (dx >? zero)%num = true
                   /\ direction i = true
                   /\ (speed i <? zero)%num = true
                   /\ (Num.neg fifteen <=? speed i)%num = true))
       | None =>
           (left <? hundredTwenty)%num && (dx <? zero)%num = false
           /\ (right >? clientWidth sc - hundredTwenty)%num
              && (dx >? zero)%num = false
       end.
Proof.
  intros r dom dx sd sc Hsc Hover out left right. subst out.
  unfold adjustScroll, interval_after. rewrite Hsc, Hover.
  fold left right.
  destruct ((left <? hundredTwenty)%num && (dx <? zero)%num) eqn:E1.
  - apply andb_prop in E1. destruct E1 as [E1 E1'].
    unfold runScrollAdjuster. rewrite Hsc. simpl.
    split; [reflexivity |]. split; [reflexivity |].
    split; [reflexivity |]. split; [reflexivity |]. left.
    split; [reflexivity |]. split; [reflexivity |].
    destruct (speed_limited (hundredTwenty - left)%num
                (ltb_not_nan _ _ E1)) as (_ & B & C & _).
    split; [apply C, sub_positive, E1 | exact B].
  - destruct ((right >? clientWidth sc - hundredTwenty)%num
              && (dx >? zero)%num) eqn:E2.
    + apply andb_prop in E2. destruct E2 as [E2 E2'].
      unfold runScrollAdjuster. rewrite Hsc. simpl.
      split; [reflexivity |]. split; [reflexivity |].
      split; [reflexivity |]. split; [reflexivity |]. right.
      split; [reflexivity |]. split; [reflexivity |].
      unfold Num.gtb in E2.
      destruct (speed_limited (clientWidth sc - hundredTwenty - right)%num
                  (ltb_not_nan' _ _ E2)) as (A & _ & _ & D).
      split; [apply D, sub_negative, E2 | exact A].
    + simpl. auto.
Qed.

Lemma adjustScroll_handle_interval_witness :
  exists i,
    interval_after (adjustScroll regionB scrolling500 (of_Z (-50))
                      (Some SideStart)) = Some i
    /\ direction i = false /\ (zero <? speed i)%num = true.
Proof.
  pose proof (adjustScroll_handle_interval regionB scrolling500 (of_Z (-50))
                SideStart _ eq_refl eq_refl) as H.
  cbv zeta in H. destruct H as (_ & _ & H).
  destruct (interval_after _) as [i |] eqn:E.
  - exists i. split; [reflexivity |].
    destruct H as (_ & _ & [(_ & Hd & Hs & _) | (Hc & _)]).
    + auto.
    + vm_compute in Hc. discriminate.
  - destruct H as [Hc _]. vm_compute in Hc. discriminate.
Defined.



(** X11.  One firing of the interval callback scrolls at most once, by
    exactly minus the speed, and then issues exactly one synthetic
    [_onUpdate(-speed, side)]; it does so when the interval runs towards
    the end with a positive [dx] while the scroll offset is below the
    scroll width, or towards the start with a negative [dx] while the
    scroll offset is above 0, and does nothing otherwise. *)
Theorem tick_scrolls_once :
  forall r dom i sc,
    runScrollAdjuster_Interval r = Some i ->
    scrollContainer dom = Some sc ->
    let fires :=
      (direction i && (interval_dx i >? zero)%num
       && (scrollLeft sc <? scrollWidth sc)%num)
      || (negb (direction i) && (interval_dx i <? zero)%num
          && (scrollLeft sc >? zero)%num) in
    let dom' := with_scrollLeft dom sc (scrollLeft sc - speed i)%num in
    tick r dom
    = if fires then
        (fst (_onUpdate r dom' (Num.neg (speed i)) (interval_side i)),
         dom',
         snd (_onUpdate r dom' (Num.neg (speed i)) (interval_side i)))
      else (r, dom, []).
Proof.
  intros r dom i sc Hi Hsc fires dom'. subst fires.
  unfold tick. rewrite Hi, Hsc.
  destruct (direction i) eqn:Ed; cbn [andb negb orb].
  - destruct ((interval_dx i >? zero)%num
              && (scrollLeft sc <? scrollWidth sc)%num) eqn:E;
      cbn [orb].
    + fold dom'.
      destruct (_onUpdate r dom' (Num.neg (speed i)) (interval_side i))
        as [r1 fx1].
      reflexivity.
    + rewrite Hsc. reflexivity.
  - rewrite Hsc.
    destruct ((interval_dx i <? zero)%num && (scrollLeft sc >? zero)%num)
      eqn:E.
    + fold dom'.
      destruct (_onUpdate r dom' (Num.neg (speed i)) (interval_side i))
        as [r1 fx1].
      reflexivity.
    + reflexivity.
Qed.

Lemma tick_scrolls_once_witness :
  let r := fst (fst (adjustScroll regionB scrolling500 (of_Z (-50))
                       (Some SideStart))) in
  match scrollLeft_of (snd (fst (tick r scrolling500))) with
  | Some v => sameb v (of_Z 285)
  | None => false
  end = true.
Proof.
  intro r.
  rewrite (tick_scrolls_once r scrolling500
             (mkInterval false fifteen (of_Z (-50)) (Some SideStart))
             (mkScroller (of_Z 800) (of_Z 2000) (of_Z 300) zero)
             eq_refl eq_refl).
  reflexivity.
Defined.

(* ================================================================== *)
(** ** Further properties: the plugin *)
(* ================================================================== *)

Lemma clamp_at_zero (z : Q) (t : num) :
  (z == 0)%Q -> is_nan t = false -> (clampPosition (Fin z) t =~ zero)%num.
Proof.
  intros Hz Hn. unfold clampPosition.
  destruct t as [x| | |]; try discriminate; simpl; num_unfold; simpl.
  all: repeat match goal with
       | |- context [if ?b then _ else _] => destruct b eqn:?; simpl
       end.
  all: num_crush.
Qed.

(** [ready] changes no position. *)
Lemma runReady_positions (waiting : list Ref) :
  forall p d x r,
    deref p x = Some r ->
    exists r', deref (fst (runReady p waiting d)) x = Some r'
               /\ start r' = start r /\ end_ r' = end_ r.
Proof.
  induction waiting as [| y rest IH]; intros p d x r Hx; simpl.
  - eauto.
  - set (p1 := match deref p y with
               | Some r => store p y (_setTotalDuration r d)
               | None => p
               end).
    assert (H1 : exists r1, deref p1 x = Some r1
                            /\ start r1 = start r /\ end_ r1 = end_ r).
    { subst p1. destruct (deref p y) as [ry |] eqn:Ey; [| eauto].
      unfold deref in *. simpl.
      destruct (Nat.eq_dec y x) as [-> | Hne].
      - rewrite list_set_same
          by (apply nth_error_Some; rewrite Hx; discriminate).
        rewrite Hx in Ey. inversion Ey; subst. eauto.
      - rewrite list_set_other by exact Hne. eauto. }
    destruct H1 as (r1 & Hd1 & Hs1 & He1).
    specialize (IH
      (mkPlugin (heap p1) (regions p1 ++ [y])%list (regionIn p1)
         (onceReady p1) (dragSelection p1)) d x r1 Hd1).
    destruct (runReady _ rest d) as [p3 evs']. simpl in *.
    destruct IH as (r' & Hd & Hs & He).
    exists r'. split; [exact Hd |]. split; congruence.
Qed.

(** [addRegion] while the duration is unknown, spelled out. *)
Lemma addRegion_deferred (p : RegionsPlugin) (w : WaveSurfer)
  (options : RegionParams) (fresh : string) :
  Num.truthy (getDuration w) = false ->
  let x := List.length (heap p) in
  let p1 :=
    mkPlugin (heap p ++ [new_Region options (getDuration w) fresh])%list
      (regions p) (regionIn p) (onceReady p ++ [x])%list (dragSelection p) in
  addRegion p (Some w) options fresh = Returned (x, p1, [])
  /\ deref p1 x = Some (new_Region options (getDuration w) fresh).
Proof.
  intros Hd x p1. unfold addRegion. simpl. rewrite Hd. simpl.
  split; [reflexivity |].
  unfold deref; simpl. fold x.
  rewrite nth_error_app2 by (subst x; lia).
  subst x. rewrite Nat.sub_diag. reflexivity.
Qed.


(** X12.  A region added while the host reports a duration of 0 is stored
    as a marker at 0, whatever start and end were asked for (numbers), and
    stays there when [ready] brings the duration and the region is saved:
    [_setTotalDuration] re-renders but does not restore the position. *)
Theorem addRegion_before_duration_collapses :
  forall p w options fresh z d,
    getDuration w = Fin z -> (z == 0)%Q ->
    is_nan (params_start options) = false ->
    is_nan (nullish (params_end options) (params_start options)) = false ->
    let x := List.length (heap p) in
    exists p1,
      addRegion p (Some w) options fresh = Returned (x, p1, [])
      /\ exists r,
           deref (fst (ready p1 d)) x = Some r
           /\ In x (regions (fst (ready p1 d)))
           /\ (start r =~ zero)%num /\ (end_ r =~ zero)%num
           /\ totalDuration r = d.
Proof.
  intros p w options fresh z d Hd Hz Hs He x.
  assert (Ht : Num.truthy (getDuration w) = false).
  { rewrite Hd. simpl. apply negb_false_iff, Qeq_bool_iff, Hz. }
  destruct (addRegion_deferred p w options fresh Ht) as (Ha & Hnew).
  fold x in Ha, Hnew.
  eexists. split; [exact Ha |].
  unfold ready. simpl.
  match goal with
  | |- context [runReady ?q ?l d] =>
      destruct (runReady_spec l q d) as (Hr & _ & _ & Hx);
      destruct (runReady_positions l q d x _ Hnew) as (r & Hd' & Es & Ee)
  end.
  simpl in Hr, Hx.
  exists r. split; [exact Hd' |].
  split; [rewrite Hr; auto using in_or_app, in_eq |].
  destruct (new_Region_position options (getDuration w) fresh)
    as (Ns & Ne & _).
  rewrite Es, Ee, Ns, Ne, Hd.
  split; [apply clamp_at_zero; assumption |].
  split; [apply clamp_at_zero; assumption |].
  destruct (Hx x) as (r2 & Hr2 & Ht2).
  - rewrite length_app. simpl. fold x. lia.
  - left. apply in_or_app. right. apply in_eq.
  - rewrite Hd' in Hr2. inversion Hr2; subst. reflexivity.
Qed.

Lemma addRegion_before_duration_collapses_witness :
  exists p1 r,
    addRegion new_RegionsPlugin (Some unloaded) (params_of 5 10) "region"
    = Returned (0%nat, p1, [])
    /\ deref (fst (ready p1 hundred)) 0%nat = Some r
    /\ (start r =~ zero)%num /\ (end_ r =~ zero)%num.
Proof.
  destruct (addRegion_before_duration_collapses new_RegionsPlugin unloaded
              (params_of 5 10) "region" 0 hundred eq_refl)
    as (p1 & Ha & r & Hr & _ & Hs & He & _);
    try reflexivity.
  exists p1, r. auto.
Defined.

Lemma same_ref_refl (x : Ref) : same_ref (Some x) x = true.
Proof. simpl. apply Nat.eqb_refl. Qed.

(** X13.  A second [timeupdate] at the same instant emits nothing and
    changes nothing: [region-in] is emitted once on entering a region, not
    on every sample inside it, and [region-out] once on leaving. *)
Theorem timeupdate_emits_once :
  forall p ws t,
    let p' := fst (onTimeupdate p ws t) in
    onTimeupdate p' ws t = (p', []).
Proof.
  intros p ws t p'. subst p'. unfold onTimeupdate.
  destruct (match ws with Some w => isPlaying w | None => false end);
    [| reflexivity].
  destruct (find (contains p t) (regions p)) as [x |] eqn:Ef.
  - destruct (negb (same_ref (regionIn p) x)) eqn:Es; simpl.
    + change (find (contains p t) (regions p)) with
        (find (contains p t) (regions p)).
      unfold contains, deref in *. simpl. rewrite Ef.
      rewrite Nat.eqb_refl. reflexivity.
    + rewrite Ef, Es. reflexivity.
  - destruct (regionIn p) as [old |] eqn:Er; simpl.
    + unfold contains, deref in *. simpl. rewrite Ef. reflexivity.
    + rewrite Ef, Er. reflexivity.
Qed.

Lemma follow_app (a b : list PluginEvent) :
  forall cur,
    follow cur (a ++ b)
    = match follow cur a with
      | Some cur' => follow cur' b
      | None => None
      end.
Proof.
  induction a as [| e a IH]; intro cur; simpl; [reflexivity |].
  destruct e; auto; destruct (same_ref cur r); auto.
Qed.

Lemma follow_created (xs : list Ref) (cur : option Ref) :
  follow cur (map RegionCreated xs) = Some cur.
Proof. induction xs; simpl; auto. Qed.

(** [ready] leaves everything but the heap and the list of regions. *)
Lemma runReady_frame (waiting : list Ref) :
  forall p d,
    regionIn (fst (runReady p waiting d)) = regionIn p
    /\ onceReady (fst (runReady p waiting d)) = onceReady p
    /\ dragSelection (fst (runReady p waiting d)) = dragSelection p.
Proof.
  induction waiting as [| y rest IH]; intros p d; simpl; [auto |].
  match goal with
  | |- context [runReady ?q rest d] =>
      specialize (IH q d); destruct (runReady q rest d) as [p3 evs']
  end.
  simpl in *. destruct (deref p y); simpl in *; exact IH.
Qed.

Lemma step_follow (p : RegionsPlugin) (ws : option WaveSurfer)
  (c : PluginCall) :
  follow (regionIn p) (snd (step p ws c))
  = Some (regionIn (fst (step p ws c))).
Proof.
  destruct c; simpl.
  - unfold addRegion. destruct ws as [w |]; [| reflexivity]. simpl.
    destruct (negb (Num.truthy (getDuration w))); reflexivity.
  - unfold ready.
    match goal with
    | |- context [runReady ?q ?l ?d] =>
        destruct (runReady_spec l q d) as (_ & He & _);
        destruct (runReady_frame l q d) as (Hr & _)
    end.
    rewrite He, Hr, follow_created. reflexivity.
  - unfold onTimeupdate.
    destruct (match ws with Some w => isPlaying w | None => false end);
      [| reflexivity].
    destruct (find (contains p currentTime) (regions p)) as [x |].
    + destruct (same_ref (regionIn p) x) eqn:Es; simpl.
      * reflexivity.
      * rewrite Es. reflexivity.
    + destruct (regionIn p) as [old |] eqn:Er; simpl.
      * rewrite Nat.eqb_refl. reflexivity.
      * rewrite Er. reflexivity.
  - unfold selection_onStart. destruct ws; reflexivity.
  - unfold selection_onDrag.
    destruct (selection_region (dragSelection p)); [| reflexivity].
    destruct (deref p r); [| reflexivity].
    destruct (_onUpdate _ _ _ _). reflexivity.
  - unfold selection_onEnd.
    destruct (selection_region (dragSelection p)); reflexivity.
  - destruct (deref p x); reflexivity.
  - unfold removeRegion.
    destruct (existsb (Nat.eqb x) (regions p)); reflexivity.
Qed.

Lemma run_follow (cs : list (option WaveSurfer * PluginCall)) :
  forall p,
    follow (regionIn p) (snd (run p cs)) = Some (regionIn (fst (run p cs))).
Proof.
  induction cs as [| [ws c] cs IH]; intro p; simpl; [reflexivity |].
  pose proof (step_follow p ws c) as H1.
  destruct (step p ws c) as [p1 evs]. simpl in H1.
  specialize (IH p1). destruct (run p1 cs) as [p2 evs']. simpl in *.
  rewrite follow_app, H1. exact IH.
Qed.

(** X14.  In every history of the plugin the [region-in] and
    [region-out] events fit together: a [region-out] always names the
    region of the latest [region-in], with no other [region-out] since; a
    [region-in] never names the region that is in already; and the region
    the plugin holds as [regionIn] is the one of the latest [region-in]
    unless a [region-out] came after it.  (Passing from one region straight
    into another gives two [region-in] in a row.) *)
Theorem in_and_out_fit_together :
  forall cs,
    follow None (snd (run new_RegionsPlugin cs))
    = Some (regionIn (fst (run new_RegionsPlugin cs))).
Proof. intro cs. apply (run_follow cs new_RegionsPlugin). Qed.

Lemma find_none_filter (f : Ref -> bool) (x : Ref) (l : list Ref) :
  (forall y, y <> x -> f y = false) ->
  find f (filter (fun y => negb (Nat.eqb y x)) l) = None.
Proof.
  intro H. induction l as [| a l IH]; simpl; [reflexivity |].
  destruct (Nat.eqb a x) eqn:E; simpl; [exact IH |].
  rewrite H; [exact IH |]. apply Nat.eqb_neq. exact E.
Qed.

(** X15.  Removing a saved region takes it out of the list, keeps the
    others and emits [region-removed] once; removing a region that is not
    saved does nothing.  The removal does not clear [regionIn]: when the
    removed region was the one being played, the next [timeupdate] of a
    playing host at a time in no other region still emits [region-out] for
    it. *)
Theorem removeRegion_keeps_regionIn :
  forall p x,
    let out := removeRegion p x in
    (forall y, In y (regions (fst out)) <-> In y (regions p) /\ y <> x)
    /\ (In x (regions p) -> snd out = [RegionRemoved x])
    /\ (~ In x (regions p) -> out = (p, []))
    /\ regionIn (fst out) = regionIn p
    /\ forall w t,
         regionIn p = Some x -> isPlaying w = true ->
         (forall y, y <> x -> contains p t y = false) ->
         snd (onTimeupdate (fst out) (Some w) t) = [RegionOut x].
Proof.
  intros p x out. subst out. unfold removeRegion.
  destruct (existsb (Nat.eqb x) (regions p)) eqn:E.
  - apply existsb_exists in E. destruct E as (y & Hy & Exy).
    apply Nat.eqb_eq in Exy. subst y. simpl.
    split.
    { intro y. rewrite filter_In, negb_true_iff, Nat.eqb_neq. tauto. }
    split; [reflexivity |]. split; [tauto |]. split; [reflexivity |].
    intros w t Hr Hp Hc. unfold onTimeupdate. rewrite Hp. simpl.
    change (contains
              (mkPlugin (heap p)
                 (filter (fun y => negb (Nat.eqb y x)) (regions p))
                 (regionIn p) (onceReady p) (dragSelection p)) t)
      with (contains p t).
    rewrite (find_none_filter (contains p t) x (regions p) Hc), Hr.
    reflexivity.
  - assert (Hn : ~ In x (regions p)).
    { intro Hin. apply not_true_iff_false in E. apply E.
      apply existsb_exists. exists x. split; [exact Hin |].
      apply Nat.eqb_refl. }
    simpl. split.
    { intro y. split; [| tauto]. intro Hy. split; [exact Hy |].
      intros ->. tauto. }
    split; [tauto |]. split; [reflexivity |]. split; [reflexivity |].
    intros w t Hr Hp Hc. unfold onTimeupdate. rewrite Hp.
    assert (Hf : find (contains p t) (regions p) = None).
    { clear Hr E. induction (regions p) as [| a l IH]; [reflexivity |].
      simpl. rewrite Hc.
      - apply IH. intro Hin. apply Hn. right. exact Hin.
      - intros ->. apply Hn. left. reflexivity. }
    rewrite Hf, Hr. reflexivity.
Qed.

Lemma removeRegion_keeps_regionIn_witness :
  regionIn plugin_in_5_10 = Some 0%nat
  /\ snd (removeRegion plugin_in_5_10 0%nat) = [RegionRemoved 0%nat]
  /\ snd (onTimeupdate (fst (removeRegion plugin_in_5_10 0%nat))
            (Some playing100) (of_Z 50))
     = [RegionOut 0%nat].
Proof.
  destruct (removeRegion_keeps_regionIn plugin_in_5_10 0%nat)
    as (_ & Hev & _ & _ & Hout).
  split; [reflexivity |].
  split; [apply Hev; left; reflexivity |].
  apply Hout; try reflexivity.
  intros y Hy. unfold contains, deref. simpl.
  destruct y as [| y]; [congruence |]. destruct y; reflexivity.
Defined.

Lemma removeRegion_frame (p : RegionsPlugin) (x : Ref) :
  heap (fst (removeRegion p x)) = heap p
  /\ regionIn (fst (removeRegion p x)) = regionIn p
  /\ regions (fst (removeRegion p x))
     = filter (fun y => negb (Nat.eqb y x)) (regions p).
Proof.
  unfold removeRegion.
  destruct (existsb (Nat.eqb x) (regions p)) eqn:E; simpl; auto.
  repeat split. symmetry. apply forallb_filter_id.
  apply forallb_forall. intros y Hy. apply negb_true_iff, Nat.eqb_neq.
  intros ->. apply not_true_iff_false in E. apply E.
  apply existsb_exists. exists x. split; [exact Hy | apply Nat.eqb_refl].
Qed.

Lemma removeEach_spec (xs : list Ref) :
  forall p,
    NoDup xs -> incl xs (regions p) ->
    snd (removeEach p xs) = map RegionRemoved xs
    /\ regions (fst (removeEach p xs))
       = filter (fun y => negb (existsb (Nat.eqb y) xs)) (regions p)
    /\ heap (fst (removeEach p xs)) = heap p
    /\ regionIn (fst (removeEach p xs)) = regionIn p.
Proof.
  induction xs as [| x xs IH]; intros p Hnd Hincl; simpl.
  - repeat split. symmetry. apply forallb_filter_id.
    apply forallb_forall. reflexivity.
  - inversion Hnd as [| ? ? Hx Hnd']; subst.
    destruct (removeRegion_frame p x) as (Hh & Hr & Hreg).
    assert (Hev : snd (removeRegion p x) = [RegionRemoved x]).
    { unfold removeRegion.
      assert (E : existsb (Nat.eqb x) (regions p) = true).
      { apply existsb_exists. exists x.
        split; [apply Hincl; left; reflexivity | apply Nat.eqb_refl]. }
      rewrite E. reflexivity. }
    destruct (removeRegion p x) as [p1 evs]. simpl in *. subst evs.
    assert (Hincl1 : incl xs (regions p1)).
    { intros y Hy. rewrite Hreg. apply filter_In. split.
      - apply Hincl. right. exact Hy.
      - apply negb_true_iff, Nat.eqb_neq. intros ->. exact (Hx Hy). }
    destruct (IH p1 Hnd' Hincl1) as (He & Hf & Hh1 & Hr1).
    destruct (removeEach p1 xs) as [p2 evs']. simpl in *.
    split; [rewrite He; reflexivity |].
    split; [| split; congruence].
    rewrite Hf, Hreg. clear.
    induction (regions p) as [| a l IHl]; simpl; [reflexivity |].
    rewrite (Nat.eqb_sym a x).
    destruct (Nat.eqb x a); simpl; [exact IHl |].
    destruct (existsb (Nat.eqb a) xs); simpl; [exact IHl |].
    rewrite IHl. reflexivity.
Qed.

(** X16.  [clearRegions] empties the list of regions and emits
    [region-removed] once for each region, in the order of the list (no
    region being listed twice); like a single removal it leaves [regionIn]
    as it was. *)
Theorem clearRegions_empties :
  forall p,
    NoDup (regions p) ->
    regions (fst (clearRegions p)) = []
    /\ snd (clearRegions p) = map RegionRemoved (regions p)
    /\ regionIn (fst (clearRegions p)) = regionIn p.
Proof.
  intros p Hnd. unfold clearRegions.
  destruct (removeEach_spec (regions p) p Hnd (incl_refl _))
    as (He & Hf & _ & Hr).
  split; [| auto]. rewrite Hf.
  assert (H : forall l,
             incl l (regions p) ->
             filter (fun y => negb (existsb (Nat.eqb y) (regions p))) l
             = []).
  { induction l as [| a l IH]; intro Hl; simpl; [reflexivity |].
    assert (E : existsb (Nat.eqb a) (regions p) = true).
    { apply existsb_exists. exists a.
      split; [apply Hl; left; reflexivity | apply Nat.eqb_refl]. }
    rewrite E. simpl. apply IH. intros y Hy. apply Hl. right. exact Hy. }
  apply H, incl_refl.
Qed.

Lemma clearRegions_empties_witness :
  regions plugin_in_5_10 = [0%nat]
  /\ regions (fst (clearRegions plugin_in_5_10)) = []
  /\ snd (clearRegions plugin_in_5_10) = [RegionRemoved 0%nat]
  /\ regionIn (fst (clearRegions plugin_in_5_10)) = Some 0%nat.
Proof.
  assert (Hnd : NoDup (regions plugin_in_5_10)).
  { simpl. constructor; [intros [] | constructor]. }
  destruct (clearRegions_empties plugin_in_5_10 Hnd) as (A & B & C).
  split; [reflexivity |]. split; [exact A |].
  split; [exact B | exact C].
Defined.

Lemma selection_onDrag_frame (p : RegionsPlugin) (dom : Dom) (dx x : num) :
  let p' := fst (selection_onDrag p dom dx x) in
  regions p' = regions p /\ onceReady p' = onceReady p
  /\ regionIn p' = regionIn p /\ dragSelection p' = dragSelection p
  /\ List.length (heap p') = List.length (heap p)
  /\ forall y r, deref p y = Some r ->
       exists r', deref p' y = Some r'
                  /\ totalDuration r' = totalDuration r.
Proof.
  unfold selection_onDrag.
  destruct (selection_region (dragSelection p)) as [ref |];
    [| simpl; repeat split; eauto].
  destruct (deref p ref) as [r0 |] eqn:E; [| simpl; repeat split; eauto].
  match goal with
  | |- context [_onUpdate r0 ?d ?a ?sd] =>
      pose proof (onUpdate_preserves
                    (fun r => totalDuration r = totalDuration r0)
                    (fun r i H => H) (fun r s e H => H) r0 d a sd eq_refl)
        as Ht;
      destruct (_onUpdate r0 d a sd) as [r1 fx]
  end.
  simpl in *. repeat split; auto using list_set_length.
  intros y r Hy. unfold deref in *. simpl.
  destruct (Nat.eq_dec ref y) as [-> | Hne].
  - rewrite list_set_same
      by (apply nth_error_Some; rewrite Hy; discriminate).
    rewrite Hy in E. inversion E; subst. eauto.
  - rewrite list_set_other by exact Hne. eauto.
Qed.

Lemma selection_drags_frame (ds : list (Dom * num * num)) :
  forall p,
    let p' := selection_drags p ds in
    regions p' = regions p /\ onceReady p' = onceReady p
    /\ regionIn p' = regionIn p /\ dragSelection p' = dragSelection p
    /\ List.length (heap p') = List.length (heap p)
    /\ forall y r, deref p y = Some r ->
         exists r', deref p' y = Some r'
                    /\ totalDuration r' = totalDuration r.
Proof.
  induction ds as [| [[dom dx] x] ds IH]; intro p; simpl.
  - repeat split; eauto.
  - destruct (selection_onDrag_frame p dom dx x)
      as (A1 & A2 & A3 & A4 & A5 & A6).
    destruct (IH (fst (selection_onDrag p dom dx x)))
      as (B1 & B2 & B3 & B4 & B5 & B6).
    repeat split; try congruence.
    intros y r Hy. destruct (A6 y r Hy) as (r1 & Hr1 & Ht1).
    destruct (B6 y r1 Hr1) as (r2 & Hr2 & Ht2).
    exists r2. split; [exact Hr2 | congruence].
Qed.

(** X17.  A drag-to-create gesture saves its region exactly once, at the
    end.  The start of the drag makes a new region for the host's duration
    without listing it; the drag samples resize that region and list
    nothing; the end of the drag appends it to the list, emits
    [region-created] for it and forgets it, so that a further release or
    sample does nothing. *)
Theorem drag_to_create_saves_at_the_end :
  forall p w options fresh x ds,
    let ref := List.length (heap p) in
    let p1 := selection_onStart p (Some w) options fresh x in
    let p2 := selection_drags p1 ds in
    let p3 := fst (selection_onEnd p2) in
    regions p1 = regions p /\ regions p2 = regions p
    /\ (exists r, deref p2 ref = Some r /\ totalDuration r = getDuration w)
    /\ regions p3 = (regions p ++ [ref])%list
    /\ snd (selection_onEnd p2) = [RegionCreated ref]
    /\ selection_onEnd p3 = (p3, [])
    /\ forall dom dx x', selection_onDrag p3 dom dx x' = (p3, []).
Proof.
  intros p w options fresh x ds ref p1 p2 p3.
  assert (H1 : regions p1 = regions p
               /\ selection_region (dragSelection p1) = Some ref
               /\ exists r, deref p1 ref = Some r
                            /\ totalDuration r = getDuration w).
  { subst p1. unfold selection_onStart. simpl. repeat split.
    eexists. split.
    - unfold deref. simpl. fold ref.
      rewrite nth_error_app2 by (subst ref; lia).
      subst ref. rewrite Nat.sub_diag. reflexivity.
    - reflexivity. }
  destruct H1 as (R1 & S1 & r1 & D1 & T1).
  destruct (selection_drags_frame ds p1) as (R2 & _ & _ & S2 & _ & D2).
  fold p2 in R2, S2, D2.
  destruct (D2 ref r1 D1) as (r2 & Hr2 & Ht2).
  assert (S2' : selection_region (dragSelection p2) = Some ref)
    by (rewrite S2; exact S1).
  split; [exact R1 |]. split; [congruence |].
  split; [exists r2; split; [exact Hr2 | congruence] |].
  assert (E : selection_onEnd p2
              = (with_selection
                   (mkPlugin (heap p2) (regions p2 ++ [ref])%list
                      (regionIn p2) (onceReady p2) (dragSelection p2))
                   (mkDragSelection None
                      (selection_startX (dragSelection p2))),
                 [RegionCreated ref])).
  { unfold selection_onEnd. rewrite S2'. reflexivity. }
  subst p3. rewrite E. simpl.
  split; [rewrite R2, R1; reflexivity |].
  repeat split.
Qed.

Lemma NoDup_app_filter (f : Ref -> bool) (a b : list Ref) :
  NoDup (a ++ b) -> NoDup (a ++ filter f b).
Proof.
  induction a as [| x a IH]; simpl; intro H.
  - apply NoDup_filter. exact H.
  - inversion H as [| ? ? Hx Hnd]; subst. constructor; [| auto].
    intro Hin. apply Hx. apply in_app_iff in Hin. apply in_app_iff.
    destruct Hin as [Hin | Hin]; [left; exact Hin |].
    right. apply filter_In in Hin. tauto.
Qed.

Lemma NoDup_app_disjoint (a b : list Ref) :
  NoDup (a ++ b) -> forall x, In x a -> ~ In x b.
Proof.
  induction a as [| y a IH]; simpl; intros H x Hx Hb; [exact Hx |].
  inversion H as [| ? ? Hy Hnd]; subst.
  destruct Hx as [-> | Hx].
  - apply Hy. apply in_or_app. right. exact Hb.
  - exact (IH Hnd x Hx Hb).
Qed.

Lemma NoDup_fresh (l : list Ref) (n : nat) :
  NoDup l -> (forall x, In x l -> (x < n)%nat) -> NoDup (n :: l).
Proof.
  intros Hnd Hb. constructor; [| exact Hnd].
  intro Hin. specialize (Hb n Hin). lia.
Qed.

Lemma well_tracked_perm (p q : RegionsPlugin) :
  Permutation (tracked p) (tracked q) ->
  List.length (heap q) = List.length (heap p) ->
  well_tracked p -> well_tracked q.
Proof.
  intros Hperm Hlen [Hnd Hb]. split.
  - eapply Permutation_NoDup; eauto.
  - intros x Hx. rewrite Hlen. apply Hb.
    eapply Permutation_in; [apply Permutation_sym; exact Hperm | exact Hx].
Qed.

(** Tracking one more region, made at the end of the heap. *)
Lemma well_tracked_alloc (p q : RegionsPlugin) :
  Permutation (List.length (heap p) :: tracked p) (tracked q) ->
  List.length (heap q) = S (List.length (heap p)) ->
  well_tracked p -> well_tracked q.
Proof.
  intros Hperm Hlen [Hnd Hb]. split.
  - eapply Permutation_NoDup; [exact Hperm |].
    apply NoDup_fresh; assumption.
  - intros x Hx. rewrite Hlen.
    apply (Permutation_in _ (Permutation_sym Hperm)) in Hx.
    destruct Hx as [<- | Hx]; [lia |]. specialize (Hb x Hx). lia.
Qed.

Lemma perm_waiting (n : Ref) (D O R : list Ref) :
  Permutation (n :: D ++ O ++ R) (D ++ (O ++ [n]) ++ R).
Proof.
  rewrite <- (app_assoc O [n] R). simpl.
  rewrite (app_assoc D O (n :: R)), (app_assoc D O R).
  apply Permutation_middle.
Qed.

Lemma perm_saved (n : Ref) (D O R : list Ref) :
  Permutation (n :: D ++ O ++ R) (D ++ O ++ R ++ [n]).
Proof.
  rewrite (app_assoc O R [n]), (app_assoc D (O ++ R) [n]).
  apply Permutation_cons_append.
Qed.

Lemma step_well_tracked (p : RegionsPlugin) (ws : option WaveSurfer)
  (c : PluginCall) :
  well_tracked p -> well_tracked (fst (step p ws c)).
Proof.
  intro Hp. destruct c; simpl.
  - (* addRegion *)
    unfold addRegion. destruct ws as [w |]; [| exact Hp]. simpl.
    destruct (negb (Num.truthy (getDuration w))); simpl.
    + apply (well_tracked_alloc p); [| simpl; rewrite length_app; simpl; lia
                                     | exact Hp].
      apply perm_waiting.
    + apply (well_tracked_alloc p); [| simpl; rewrite length_app; simpl; lia
                                     | exact Hp].
      apply perm_saved.
  - (* ready *)
    unfold ready.
    match goal with
    | |- context [runReady ?q ?l ?d] =>
        destruct (runReady_spec l q d) as (Hr & _ & Hl & _);
        destruct (runReady_frame l q d) as (_ & Ho & Hs)
    end.
    simpl in *. apply (well_tracked_perm p); [| exact Hl | exact Hp].
    unfold tracked, drawn. rewrite Hr, Ho, Hs. simpl.
    apply Permutation_app_head, Permutation_app_comm.
  - (* timeupdate *)
    apply (well_tracked_perm p); [| | exact Hp];
      unfold onTimeupdate;
      repeat match goal with
      | |- context [if ?b then _ else _] => destruct b
      | |- context [match ?o with Some _ => _ | None => _ end] =>
          destruct o
      end; reflexivity.
  - (* the start of a drag-to-create *)
    unfold selection_onStart. destruct ws as [w |].
    + destruct Hp as [Hnd Hb]. unfold tracked in *. split; simpl.
      * apply NoDup_fresh.
        -- apply NoDup_app_remove_l in Hnd. exact Hnd.
        -- intros y Hy. apply Hb. apply in_or_app. right. exact Hy.
      * rewrite length_app. simpl.
        intros y [<- | Hy]; [lia |].
        assert (y < List.length (heap p))%nat; [| lia].
        apply Hb. apply in_or_app. right. exact Hy.
    + apply (well_tracked_perm p); [reflexivity | reflexivity | exact Hp].
  - (* a sample of it *)
    destruct (selection_onDrag_frame p dom dx x)
      as (A1 & A2 & _ & A4 & A5 & _).
    apply (well_tracked_perm p); [| exact A5 | exact Hp].
    unfold tracked, drawn. rewrite A1, A2, A4. reflexivity.
  - (* the end of it *)
    unfold selection_onEnd.
    destruct (selection_region (dragSelection p)) as [ref |] eqn:E;
      [| exact Hp].
    simpl. apply (well_tracked_perm p); [| reflexivity | exact Hp].
    unfold tracked, drawn. rewrite E. simpl.
    apply (perm_saved ref [] (onceReady p) (regions p)).
  - (* a call on a region *)
    destruct (deref p x); [| exact Hp]. simpl.
    apply (well_tracked_perm p);
      [reflexivity | simpl; apply list_set_length | exact Hp].
  - (* remove *)
    destruct (removeRegion_frame p x) as (Hh & _ & Hr).
    destruct Hp as [Hnd Hb]. unfold tracked in *.
    assert (Hd : dragSelection (fst (removeRegion p x)) = dragSelection p
                 /\ onceReady (fst (removeRegion p x)) = onceReady p).
    { unfold removeRegion.
      destruct (existsb (Nat.eqb x) (regions p)); auto. }
    destruct Hd as [Hd Ho]. unfold well_tracked, tracked, drawn in *.
    split.
    + rewrite Hd, Ho, Hr, app_assoc. apply NoDup_app_filter.
      rewrite <- app_assoc. exact Hnd.
    + intros y Hy. rewrite Hh. apply Hb.
      rewrite Hd, Ho, Hr in Hy. rewrite !in_app_iff in *.
      rewrite filter_In in Hy. tauto.
Qed.

Lemma run_well_tracked (cs : list (option WaveSurfer * PluginCall)) :
  forall p, well_tracked p -> well_tracked (fst (run p cs)).
Proof.
  induction cs as [| [ws c] cs IH]; intros p Hp; simpl; [exact Hp |].
  pose proof (step_well_tracked p ws c Hp) as H1.
  destruct (step p ws c) as [p1 evs].
  specialize (IH p1 H1). destruct (run p1 cs). exact IH.
Qed.

(** X18.  Whatever happens to the plugin, [getRegions()] never lists a
    region twice, and a region that still waits for [ready] or is still
    being drawn is not listed yet. *)
Theorem regions_listed_once :
  forall cs,
    let p := fst (run new_RegionsPlugin cs) in
    NoDup (regions p)
    /\ (forall x, In x (onceReady p) -> ~ In x (regions p))
    /\ (forall x, selection_region (dragSelection p) = Some x ->
                  ~ In x (regions p))
    /\ forall x, In x (regions p) -> exists r, deref p x = Some r.
Proof.
  intros cs p.
  assert (H : well_tracked p).
  { apply run_well_tracked. split; [constructor | intros x []]. }
  destruct H as [Hnd Hb]. unfold tracked in *.
  pose proof (NoDup_app_remove_l _ _ Hnd) as Hnd1.
  split; [apply (NoDup_app_remove_l _ _ Hnd1) |].
  split.
  { intros x Ho Hr. exact (NoDup_app_disjoint _ _ Hnd1 x Ho Hr). }
  split.
  { intros x Hs Hr. unfold drawn in Hnd. rewrite Hs in Hnd. simpl in Hnd.
    inversion Hnd as [| ? ? Hx _]; subst. apply Hx.
    apply in_or_app. right. exact Hr. }
  intros x Hx.
  assert (Hlt : (x < List.length (heap p))%nat).
  { apply Hb. apply in_or_app. right. apply in_or_app. right. exact Hx. }
  unfold deref. destruct (nth_error (heap p) x) eqn:E; [eauto |].
  apply nth_error_None in E. lia.
Qed.

(* ================================================================== *)
(** ** Further properties: the drag recogniser *)
(* ================================================================== *)

Section Recogniser.

Import Draggable.

Variable cfg : Config.

Lemma Qltb_false_le (a b : Q) : (b <= a)%Q -> Qltb a b = false.
Proof.
  intro H. unfold Qltb. destruct (a ?= b)%Q eqn:E; try reflexivity.
  apply Qlt_alt in E. exfalso. lra.
Qed.

Lemma ignored_sample (s : Session) (e : Sample) :
  too_early cfg s e = true
  \/ (isDragging s = false /\ within_threshold cfg s e) ->
  onPointerMove cfg s e = (s, []).
Proof.
  unfold onPointerMove, too_early, within_threshold.
  intros [H | (Hd & Hx & Hy)].
  - rewrite H. reflexivity.
  - destruct (isTouchDevice cfg
              && (now e - touchStartTime s <? touchDelay cfg)%Z);
      [reflexivity |].
    rewrite Hd, (Qltb_false_le _ _ Hx), (Qltb_false_le _ _ Hy).
    reflexivity.
Qed.

(** A dragging session stays one, and starts no more. *)
Lemma onPointerMove_dragging (s : Session) (e : Sample) :
  isDragging s = true ->
  isDragging (fst (onPointerMove cfg s e)) = true
  /\ existsb is_OnStart (snd (onPointerMove cfg s e)) = false.
Proof.
  intro Hd. unfold onPointerMove.
  destruct (isTouchDevice cfg
            && (now e - touchStartTime s <? touchDelay cfg)%Z);
    [simpl; auto |].
  rewrite Hd. simpl.
  destruct (leaveEarlier cfg s _ _ _); simpl; auto.
Qed.

Lemma moves_dragging (es : list Sample) :
  forall s,
    isDragging s = true ->
    isDragging (fst (moves cfg s es)) = true
    /\ existsb is_OnStart (snd (moves cfg s es)) = false.
Proof.
  induction es as [| e es IH]; intros s Hd; simpl; [auto |].
  destruct (onPointerMove_dragging s e Hd) as [H1 H2].
  destruct (onPointerMove cfg s e) as [s1 cs]. simpl in *.
  destruct (IH s1 H1) as [H3 H4].
  destruct (moves cfg s1 es) as [s2 cs']. simpl in *.
  split; [exact H3 |]. rewrite existsb_app, H2, H4. reflexivity.
Qed.

(** What one sample does to a session that does not drag yet. *)
Lemma onPointerMove_idle (s : Session) (e : Sample) :
  isDragging s = false ->
  onPointerMove cfg s e = (s, [])
  \/ (isDragging (fst (onPointerMove cfg s e)) = true
      /\ exists rest,
           snd (onPointerMove cfg s e)
           = OnStart (startX s - rect_left (rect e))
               (startY s - rect_top (rect e)) :: rest
           /\ existsb is_OnStart rest = false).
Proof.
  intro Hd. unfold onPointerMove.
  destruct (isTouchDevice cfg
            && (now e - touchStartTime s <? touchDelay cfg)%Z);
    [left; reflexivity |].
  rewrite Hd. cbn [orb].
  destruct (Qltb (threshold cfg) (Qabs (clientX e - startX s))
            || Qltb (threshold cfg) (Qabs (clientY e - startY s)));
    [| left; reflexivity].
  right. destruct (leaveEarlier cfg s _ _ _); simpl.
  - split; [reflexivity |]. exists []. auto.
  - split; [reflexivity |]. eexists. split; [reflexivity |]. reflexivity.
Qed.

Lemma moves_idle (es : list Sample) :
  forall s,
    isDragging s = false ->
    (isDragging (fst (moves cfg s es)) = false
     /\ moves cfg s es = (s, []))
    \/ (isDragging (fst (moves cfg s es)) = true
        /\ exists e rest,
             In e es
             /\ snd (moves cfg s es)
                = OnStart (startX s - rect_left (rect e))
                    (startY s - rect_top (rect e)) :: rest
             /\ existsb is_OnStart rest = false).
Proof.
  induction es as [| e es IH]; intros s Hd; simpl; [left; auto |].
  destruct (onPointerMove_idle s e Hd) as [H | (H1 & rest & H2 & H3)].
  - rewrite H.
    destruct (IH s Hd) as [(Hi & Hm) | (Hi & e' & rest & Hin & Hc & Hr)].
    + left. rewrite Hm. simpl. auto.
    + right. destruct (moves cfg s es) as [s2 cs']. simpl in *.
      split; [exact Hi |]. exists e', rest. auto.
  - right.
    destruct (onPointerMove cfg s e) as [s1 cs]. simpl in *.
    destruct (moves_dragging es s1 H1) as [H4 H5].
    destruct (moves cfg s1 es) as [s2 cs']. simpl in *.
    split; [exact H4 |]. exists e, (rest ++ cs')%list.
    split; [auto |]. split; [rewrite H2; reflexivity |].
    rewrite existsb_app, H3, H5. reflexivity.
Qed.

End Recogniser.

(** X19.  Move samples are ignored outright (no callback, the anchor not
    advanced, the session not activated) as long as each of them either
    arrives within the touch delay on a touch screen or, the session not
    dragging yet, stays within the threshold of the press point in both
    axes. *)
Theorem samples_below_threshold_ignored :
  forall cfg s es,
    (forall e, In e es ->
       too_early cfg s e = true
       \/ (Draggable.isDragging s = false /\ within_threshold cfg s e)) ->
    Draggable.moves cfg s es = (s, []).
Proof.
  intros cfg s es. induction es as [| e es IH]; intro H; simpl.
  - reflexivity.
  - rewrite (ignored_sample cfg s e) by (apply H; left; reflexivity).
    rewrite IH by (intros e' He'; apply H; right; exact He').
    reflexivity.
Qed.

Lemma samples_below_threshold_ignored_witness :
  Draggable.moves move_config
    (Draggable.mkSession 100 40 false 0 30) [move_small; move_small]
  = (Draggable.mkSession 100 40 false 0 30, []).
Proof.
  apply samples_below_threshold_ignored.
  intros e [<- | [<- | []]]; right; split; try reflexivity;
    split; vm_compute; discriminate.
Defined.

(** X20.  In a session [onStart] is called at most once, before any
    [onDrag], with the press point (not the point where the threshold was
    passed) relative to the element as it lies at that sample; nothing is
    called before it; and the release calls [onEnd] exactly when the
    session has started to drag. *)
Theorem onStart_once_and_first :
  forall cfg down s0 es,
    Draggable.onPointerDown cfg down = Some s0 ->
    let s := fst (Draggable.moves cfg s0 es) in
    let cs := snd (Draggable.moves cfg s0 es) in
    ((Draggable.isDragging s = false /\ cs = []
      /\ forall up, Draggable.onPointerUp s up = [])
     \/ (Draggable.isDragging s = true
         /\ (exists e rest,
               In e es
               /\ cs = Draggable.OnStart
                         (Draggable.clientX down
                          - Draggable.rect_left (Draggable.rect e))
                         (Draggable.clientY down
                          - Draggable.rect_top (Draggable.rect e)) :: rest
               /\ existsb is_OnStart rest = false)
         /\ forall up,
              Draggable.onPointerUp s up
              = [Draggable.OnEnd
                   (Draggable.clientX up
                    - Draggable.rect_left (Draggable.rect up))
                   (Draggable.clientY up
                    - Draggable.rect_top (Draggable.rect up))])).
Proof.
  intros cfg down s0 es Hdown s cs. subst s cs.
  assert (H0 : Draggable.isDragging s0 = false
               /\ Draggable.startX s0 = Draggable.clientX down
               /\ Draggable.startY s0 = Draggable.clientY down).
  { unfold Draggable.onPointerDown in Hdown.
    destruct (negb _); [discriminate |].
    inversion Hdown; subst; simpl; auto. }
  destruct H0 as (Hd & Hx & Hy).
  destruct (moves_idle cfg es s0 Hd)
    as [(Hi & Hm) | (Hi & e & rest & Hin & Hc & Hr)].
  - left. rewrite Hm. simpl. split; [exact Hd |]. split; [reflexivity |].
    intro up. unfold Draggable.onPointerUp. rewrite Hd. reflexivity.
  - right. split; [exact Hi |]. split.
    + exists e, rest. rewrite <- Hx, <- Hy. auto.
    + intro up. unfold Draggable.onPointerUp. rewrite Hi. reflexivity.
Qed.

Lemma onStart_once_and_first_witness :
  snd (Draggable.moves move_config
         (Draggable.mkSession 100 40 false 0 30) [move_small; move_first])
  = [Draggable.OnStart (100 - 70) (40 - 0);
     Draggable.OnDrag (110 - 100) (40 - 40) (110 - 70) (40 - 0)].
Proof.
  destruct (onStart_once_and_first move_config move_press
              (Draggable.mkSession 100 40 false 0 30)
              [move_small; move_first] eq_refl)
    as [(Hi & _) | (_ & _ & _)].
  - vm_compute in Hi. discriminate.
  - reflexivity.
Defined.

Section Deltas.

Import Draggable.

Variable cfg : Config.







End Deltas.



Section WholeElement.

Import Draggable.

Variable cfg : Config.




End WholeElement.



(* ================================================================== *)
(** ** Further properties: the overlay *)
(* ================================================================== *)

Lemma stopsAfter_apart (total : num) (rest : list Region) :
  forall prev,
    rest <> [] -> apart total prev rest ->
    stopsAfter total prev rest
    = (flat_map band rest ++ [(dark, At100)])%list.
Proof.
  induction rest as [| r rest IH]; intros prev Hne Hap; [congruence |].
  destruct Hap as (Hs & He & Hap).
  change (stopsAfter total prev (r :: rest))
    with (laterStops total prev r (is_nil rest)
          ++ stopsAfter total r rest)%list.
  unfold laterStops. rewrite Hs, He.
  destruct rest as [| r2 rest2].
  - reflexivity.
  - rewrite (IH r) by (discriminate || exact Hap). reflexivity.
Qed.

Lemma Fixed_eqb_sym (a b : Fixed) : Fixed_eqb a b = Fixed_eqb b a.
Proof.
  destruct a as [| s | s n | p], b as [| t | t m | q]; simpl;
    try reflexivity.
  - destruct s, t; reflexivity.
  - rewrite (Z.eqb_sym n m). destruct s, t; reflexivity.
  - rewrite (Z.eqb_sym (Qnum p)), (Pos.eqb_sym (Qden p)). reflexivity.
Qed.

Lemma StopAt_eqb_sym (a b : StopAt) : StopAt_eqb a b = StopAt_eqb b a.
Proof.
  destruct a, b; simpl; try reflexivity. apply Fixed_eqb_sym.
Qed.

(** X23.  For regions that stand clear of each other and of the two ends
    of the timeline (the first not starting at 0, none ending at the total
    duration, none starting at the place where the one before it ends),
    the gradient is: dark from [0%], then for each region in turn dark up
    to its start, light from its start to its end and dark from its end,
    then dark up to [100%]. *)
Theorem gradient_of_separate_regions :
  forall total r rest,
    Num.eqb (start r) zero = false ->
    Num.eqb (end_ r) total = false ->
    apart total r rest ->
    gradientStops total (r :: rest)
    = ((dark, At0) :: flat_map band (r :: rest) ++ [(dark, At100)])%list.
Proof.
  intros total r rest Hs He Hap.
  change (gradientStops total (r :: rest))
    with (firstStops total r (hd_error rest)
          ++ stopsAfter total r rest)%list.
  unfold firstStops. rewrite Hs.
  destruct rest as [| r2 rest2].
  - reflexivity.
  - pose proof Hap as (Hs2 & _).
    rewrite stopsAfter_apart by (discriminate || exact Hap).
    change (hd_error (r2 :: rest2)) with (Some r2).
    rewrite He, StopAt_eqb_sym, Hs2.
    reflexivity.
Qed.

Lemma gradient_of_separate_regions_witness :
  gradientStops hundred scenarioC_inside
  = ((dark, At0) :: flat_map band scenarioC_inside
       ++ [(dark, At100)])%list.
Proof.
  apply (gradient_of_separate_regions hundred (region_of 5 10)
           [region_of 40 90]).
  - reflexivity.
  - reflexivity.
  - simpl. auto.
Defined.

Lemma key_range (q : Q) :
  (0 <= q)%Q -> (q <= 100)%Q -> (0 <= key q <= 100 * 10 ^ 5)%Z.
Proof.
  intros H0 H1. unfold key.
  change (ten_to 5) with (inject_Z 100000). change (100 * 10 ^ 5)%Z
    with 10000000%Z.
  split.
  - change 0%Z with (Qfloor 0). apply Qfloor_resp_le.
    unfold inject_Z. lra.
  - assert (H : (Qfloor (q * inject_Z 100000 + (1 # 2))
                 <= Qfloor (inject_Z 10000000 + (1 # 2)))%Z).
    { apply Qfloor_resp_le. unfold inject_Z. lra. }
    exact H.
Qed.

Lemma key_mono (p q : Q) : (p <= q)%Q -> (key p <= key q)%Z.
Proof.
  intro H. unfold key. apply Qfloor_resp_le.
  change (ten_to 5) with (inject_Z 100000). unfold inject_Z. lra.
Qed.

Lemma place_in_range (q : Q) :
  (0 <= q)%Q -> (q <= 100)%Q ->
  place (AtFixed (toFixed 5 (Fin q))) = Some (key q).
Proof.
  intros H0 H1. unfold toFixed.
  assert (Ha : (Qabs q == q)%Q) by (apply Qabs_pos; exact H0).
  assert (Hbig : Qle_bool (ten_to 21) (Qabs q) = false).
  { apply not_true_iff_false. intro Hb. apply Qle_bool_iff in Hb.
    rewrite Ha in Hb.
    change (ten_to 21) with (inject_Z 1000000000000000000000) in Hb.
    unfold inject_Z in Hb. lra. }
  rewrite Hbig.
  assert (Hneg : Draggable.Qltb q 0 = false).
  { unfold Draggable.Qltb. destruct (q ?= 0)%Q eqn:E; try reflexivity.
    apply Qlt_alt in E. exfalso. lra. }
  rewrite Hneg.
  change (Some (Qfloor (Qabs q * ten_to 5 + (1 # 2))) = Some (key q)).
  unfold key. f_equal.
  apply Qfloor_comp. rewrite Ha. reflexivity.
Qed.

Lemma region_places (r : Region) :
  percentages_in_range r = true ->
  exists a b,
    startPercentPosition r = Fin a /\ endPercentPosition r = Fin b
    /\ (0 <= a)%Q /\ (a <= b)%Q /\ (b <= 100)%Q
    /\ place (startStop r) = Some (key a)
    /\ place (endStop r) = Some (key b).
Proof.
  unfold percentages_in_range, startStop, endStop. intro H.
  repeat (apply andb_prop in H; destruct H as [H ?]).
  destruct (startPercentPosition r) as [a| | |],
    (endPercentPosition r) as [b| | |]; try discriminate.
  apply (leb_Fin 0 a) in H. apply (leb_Fin a b) in H1.
  apply (leb_Fin b 100) in H0.
  exists a, b. repeat split; auto; apply place_in_range; lra.
Qed.

Lemma stopsAfter_ascending (total : num) (rest : list Region) :
  forall prev b,
    endPercentPosition prev = Fin b -> (0 <= b)%Q -> (b <= 100)%Q ->
    in_order prev rest ->
    ascending (key b) (stopsAfter total prev rest).
Proof.
  induction rest as [| r rest IH]; intros prev b Hb H0 H1 Hin;
    [exact I |].
  destruct Hin as (Hle & Hr & Hin).
  destruct (region_places r Hr) as (s & e & Es & Ee & Hs0 & Hse & He1
                                      & Ps & Pe).
  rewrite Hb, Es in Hle. apply (leb_Fin b s) in Hle.
  pose proof (key_mono b s Hle) as K1.
  pose proof (key_mono s e Hse) as K2.
  pose proof (key_range s Hs0 ltac:(lra)) as R1.
  pose proof (key_range e ltac:(lra) He1) as R2.
  pose proof (IH r e Ee ltac:(lra) He1 Hin) as Htail.
  change (stopsAfter total prev (r :: rest))
    with (laterStops total prev r (is_nil rest)
          ++ stopsAfter total r rest)%list.
  unfold laterStops.
  assert (P100 : place At100 = Some (100 * 10 ^ 5)%Z) by reflexivity.
  destruct (negb (StopAt_eqb (endStop prev) (startStop r)));
    destruct (negb (Num.eqb (end_ r) total));
    destruct rest as [| r2 rest2]; simpl is_nil; cbv iota;
    cbn [andb app ascending];
    repeat first
      [ exact I | exact Htail
      | (exists (key s); split; [exact Ps |]; split; [lia |])
      | (exists (key e); split; [exact Pe |]; split; [lia |])
      | (exists (100 * 10 ^ 5)%Z; split; [exact P100 |]; split; [lia |]) ].
Qed.

(** X24.  When the regions follow each other from left to right without
    overlapping, their percentages in range, the stops of the gradient
    stand in order: every stop stands between [0%] and [100%], at or after
    the stop before it. *)
Theorem gradient_stops_ascend :
  forall total r rest,
    percentages_in_range r = true -> in_order r rest ->
    ascending 0 (gradientStops total (r :: rest)).
Proof.
  intros total r rest Hr Hin.
  destruct (region_places r Hr) as (s & e & Es & Ee & Hs0 & Hse & He1
                                      & Ps & Pe).
  pose proof (key_mono s e Hse) as K2.
  pose proof (key_range s Hs0 ltac:(lra)) as R1.
  pose proof (key_range e ltac:(lra) He1) as R2.
  pose proof (stopsAfter_ascending total rest r e Ee ltac:(lra) He1 Hin)
    as Htail.
  change (gradientStops total (r :: rest))
    with (firstStops total r (hd_error rest)
          ++ stopsAfter total r rest)%list.
  unfold firstStops.
  assert (P0 : place At0 = Some 0%Z) by reflexivity.
  assert (P100 : place At100 = Some (100 * 10 ^ 5)%Z) by reflexivity.
  destruct (Num.eqb (start r) zero);
    destruct rest as [| r2 rest2];
    [ | change (hd_error (r2 :: rest2)) with (Some r2); cbv beta iota;
        destruct (negb (Num.eqb (end_ r) total)
                  && negb (StopAt_eqb (startStop r2) (endStop r)))
      | | change (hd_error (r2 :: rest2)) with (Some r2); cbv beta iota;
          destruct (negb (Num.eqb (end_ r) total)
                    && negb (StopAt_eqb (startStop r2) (endStop r))) ];
    try change (stopsAfter total r []) with (@nil Stop);
    cbn [hd_error app ascending];
    repeat first
      [ exact I | exact Htail
      | (exists 0%Z; split; [exact P0 |]; split; [lia |])
      | (exists (key s); split; [exact Ps |]; split; [lia |])
      | (exists (key e); split; [exact Pe |]; split; [lia |])
      | (exists (100 * 10 ^ 5)%Z; split; [exact P100 |]; split; [lia |]) ].
Qed.

Lemma gradient_stops_ascend_witness :
  ascending 0 (gradientStops hundred scenarioC).
Proof.
  apply (gradient_stops_ascend hundred (region_of 0 10) [region_of 40 100]).
  - reflexivity.
  - simpl. auto.
Defined.

(* ================================================================== *)
(** ** Further properties: the element on the page *)
(* ================================================================== *)

Lemma Qfloor_half_nonneg (x : Q) : (0 <= x)%Q -> (0 <= Qfloor (x + (1 # 2)))%Z.
Proof.
  intro H. change 0%Z with (Qfloor 0). apply Qfloor_resp_le. lra.
Qed.

Lemma span_nonneg (s e D W : Q) :
  (s <= e)%Q -> (0 < D)%Q -> (0 <= W)%Q -> (0 <= (e + - s) / D * W)%Q.
Proof.
  intros Hse HD HW. apply Qmult_le_0_compat; [| exact HW].
  apply Qle_shift_div_l; [exact HD | lra].
Qed.

(** X25.  For the test of visibility a region is at least one pixel wide,
    a marker exactly one (for a position with [start <= end], a positive
    duration and a container of some width); so a region whose first pixel
    lies inside the viewport is always put on the page. *)
Theorem region_in_view_is_shown :
  forall r v s e D W L C,
    start r = Fin s -> end_ r = Fin e -> (s <= e)%Q ->
    view_duration v = Fin D -> (0 < D)%Q ->
    view_scrollWidth v = Fin W -> (0 <= W)%Q ->
    view_scrollLeft v = Fin L -> view_clientWidth v = Fin C ->
    (of_Z 1 <=? widthPixels r v)%num = true
    /\ ((s == e)%Q -> widthPixels r v = of_Z 1)
    /\ ((view_scrollLeft v <=? startPixel r v)%num = true ->
        (startPixel r v <? view_scrollLeft v + view_clientWidth v)%num
        = true ->
        renderIfVisible r v = true).
Proof.
  intros r v s e D W L C Hs He Hse HD HD0 HW HW0 HL HC.
  assert (Hsgn : (D ?= 0)%Q = Gt) by (apply Qgt_alt; exact HD0).
  assert (Hw : exists z,
             Math_round (((end_ r - start r) / view_duration v)
                         * view_scrollWidth v)%num = Fin (inject_Z z)
             /\ (0 <= z)%Z
             /\ ((s == e)%Q -> z = 0%Z)).
  { rewrite Hs, He, HD, HW. unfold Num.sub, Num.neg, Num.add, Num.div,
      Num.sgn. rewrite Hsgn. unfold Num.mul, Math_round.
    eexists. split; [reflexivity |]. split.
    - apply Qfloor_half_nonneg, span_nonneg; assumption.
    - intro Heq.
      assert (Hz : ((e + - s) / D * W + (1 # 2) == 1 # 2)%Q).
      { assert (Hd : (e + - s == 0)%Q) by lra.
        rewrite Hd. unfold Qdiv. ring. }
      rewrite (Qfloor_comp _ _ Hz). reflexivity. }
  destruct Hw as (z & Hz & Hz0 & Hzm).
  assert (Hwidth : exists w, widthPixels r v = Fin (inject_Z w)
                             /\ (1 <= w)%Z
                             /\ ((s == e)%Q -> w = 1%Z)).
  { unfold widthPixels, or_else. rewrite Hz. simpl Num.truthy.
    destruct (Qeq_bool (inject_Z z) 0) eqn:E; simpl.
    - exists 1%Z. repeat split; auto. lia.
    - exists z. split; [reflexivity |].
      assert (z <> 0%Z).
      { intros ->. apply not_true_iff_false in E. apply E.
        apply Qeq_bool_iff. reflexivity. }
      split; [lia |]. intro Heq. specialize (Hzm Heq). lia. }
  destruct Hwidth as (w & Hwp & Hw1 & Hwm).
  split.
  { rewrite Hwp. apply (leb_Fin (inject_Z 1) (inject_Z w)).
    rewrite <- Zle_Qle. exact Hw1. }
  split.
  { intro Heq. rewrite Hwp, (Hwm Heq). reflexivity. }
  intros Hleft Hright. unfold renderIfVisible. rewrite Hright, andb_true_r.
  rewrite HL in *. rewrite Hwp.
  assert (Hsp : exists p, startPixel r v = Fin p).
  { unfold startPixel. rewrite Hs, HD, HW. unfold Num.div, Num.sgn.
    rewrite Hsgn. simpl. eauto. }
  destruct Hsp as (p & Hp). rewrite Hp in *.
  apply (leb_Fin L p) in Hleft. unfold Num.gtb.
  apply (ltb_Fin L (p + inject_Z w)).
  assert (Hq : (inject_Z 1 <= inject_Z w)%Q) by (rewrite <- Zle_Qle; lia).
  unfold inject_Z at 1 in Hq. lra.
Qed.

Lemma region_in_view_is_shown_witness :
  renderIfVisible (region_of 5 5) view800 = true.
Proof.
  assert (H1 : (5 <= 5)%Q) by (vm_compute; discriminate).
  assert (H2 : (0 < 100)%Q) by reflexivity.
  assert (H3 : (0 <= 2000)%Q) by (vm_compute; discriminate).
  destruct (region_in_view_is_shown (region_of 5 5) view800
              5 5 100 2000 0 800 eq_refl eq_refl H1 eq_refl H2 eq_refl H3
              eq_refl eq_refl) as (_ & _ & H).
  apply H; reflexivity.
Defined.



Lemma Qfloor_unique (x : Q) (z : Z) :
  (inject_Z z <= x)%Q -> (x < inject_Z (z + 1))%Q -> Qfloor x = z.
Proof.
  intros H1 H2. apply Z.le_antisymm.
  - assert (H : (Qfloor x < z + 1)%Z).
    { rewrite Zlt_Qlt. eapply Qle_lt_trans; [apply Qfloor_le | exact H2]. }
    lia.
  - rewrite <- (Qfloor_Z z). apply Qfloor_resp_le. exact H1.
Qed.

Lemma ltb_inject (a b : Z) :
  (Fin (inject_Z a) <? Fin (inject_Z b))%num = (a <? b)%Z.
Proof.
  destruct (a <? b)%Z eqn:E.
  - apply ltb_Fin. rewrite <- Zlt_Qlt. apply Z.ltb_lt. exact E.
  - apply not_true_iff_false. intro H. apply ltb_Fin in H.
    rewrite <- Zlt_Qlt in H. apply Z.ltb_lt in H. congruence.
Qed.

Lemma floor_bounds (x : Q) :
  (inject_Z (Qfloor x) <= x)%Q /\ (x < inject_Z (Qfloor x) + 1)%Q.
Proof.
  split; [apply Qfloor_le |].
  pose proof (Qlt_floor x) as H. rewrite inject_Z_plus in H. exact H.
Qed.

Lemma div_le_mul (a q d : Q) :
  (0 < d)%Q -> (a <= q / d)%Q -> (a * d <= q)%Q.
Proof.
  intros Hd H.
  assert (E : (q / d * d == q)%Q) by (field; lra).
  rewrite <- E. apply Qmult_le_compat_r; [exact H | lra].
Qed.

Lemma div_lt_mul (a q d : Q) :
  (0 < d)%Q -> (q / d < a)%Q -> (q < a * d)%Q.
Proof.
  intros Hd H.
  assert (E : (q / d * d == q)%Q) by (field; lra).
  rewrite <- E. apply Qmult_lt_r; [exact Hd | exact H].
Qed.

(** X27.  The text [parseDuration] makes of a length of [q >= 0] seconds
    reads within 0.05 seconds of [q]: whole hours (left out when 0),
    minutes below 60 and seconds to one decimal.  The seconds are rounded
    on their own, so that they can read [60.0] ([n = 600]) instead of
    carrying into the minutes. *)
Theorem parseDuration_reads_close :
  forall q,
    (0 <= q)%Q ->
    let t := parseDuration (Fin q) in
    exists h m n,
      (0 <= h)%Z /\ (0 <= m < 60)%Z /\ (0 <= n <= 600)%Z
      /\ text_hours t = (if (0 <? h)%Z then Some (of_Z h) else None)
      /\ text_minutes t = of_Z m
      /\ text_minutes_padded t = (m <? 10)%Z
      /\ text_secs t = FixedDigits false n
      /\ text_secs_padded t = (n <? 100)%Z
      /\ (Qabs (inject_Z h * 3600 + inject_Z m * 60 + inject_Z n / 10 - q)
          <= 1 # 20)%Q.
Proof.
  intros q Hq t. subst t.
  (* the hours *)
  set (H := Qfloor (q / 3600)).
  destruct (floor_bounds (q / 3600)) as [Hh1 Hh2]. fold H in Hh1, Hh2.
  assert (Hq1 : (inject_Z H * 3600 <= q)%Q).
  { apply div_le_mul; [reflexivity | exact Hh1]. }
  assert (Hq2 : (q < (inject_Z H + 1) * 3600)%Q).
  { apply div_lt_mul; [reflexivity | exact Hh2]. }
  assert (HH0 : (0 <= H)%Z).
  { subst H. change 0%Z with (Qfloor 0). apply Qfloor_resp_le.
    apply Qle_shift_div_l; [reflexivity | lra]. }
  (* the minutes *)
  set (r1 := (q - 3600 * inject_Z H)%Q).
  set (M := Qfloor (r1 / 60)).
  destruct (floor_bounds (r1 / 60)) as [Hm1 Hm2]. fold M in Hm1, Hm2.
  assert (Hr1 : (0 <= r1)%Q /\ (r1 < 3600)%Q) by (unfold r1; split; lra).
  assert (Hm3 : (inject_Z M * 60 <= r1)%Q).
  { apply div_le_mul; [reflexivity | exact Hm1]. }
  assert (Hm4 : (r1 < (inject_Z M + 1) * 60)%Q).
  { apply div_lt_mul; [reflexivity | exact Hm2]. }
  assert (HM : (0 <= M < 60)%Z).
  { split.
    - subst M. change 0%Z with (Qfloor 0). apply Qfloor_resp_le.
      apply Qle_shift_div_l; [reflexivity | lra].
    - rewrite Zlt_Qlt. change (inject_Z 60) with 60%Q. lra. }
  (* the seconds *)
  assert (HK : Qfloor (q / 60) = (60 * H + M)%Z).
  { apply Qfloor_unique.
    - rewrite inject_Z_plus, inject_Z_mult. change (inject_Z 60) with 60%Q.
      apply Qle_shift_div_l; [reflexivity |]. unfold r1 in Hm3. lra.
    - rewrite !inject_Z_plus, inject_Z_mult.
      change (inject_Z 60) with 60%Q. change (inject_Z 1) with 1%Q.
      apply Qlt_shift_div_r; [reflexivity |]. unfold r1 in Hm4. lra. }
  set (x := (q - 60 * inject_Z (60 * H + M))%Q).
  assert (Hx : (0 <= x)%Q /\ (x < 60)%Q).
  { unfold x. rewrite inject_Z_plus, inject_Z_mult.
    change (inject_Z 60) with 60%Q. unfold r1 in Hm3, Hm4. split; lra. }
  set (n := Qfloor (x * 10 + (1 # 2))).
  destruct (floor_bounds (x * 10 + (1 # 2))) as [Hn1 Hn2].
  fold n in Hn1, Hn2.
  assert (Hn : (0 <= n <= 600)%Z).
  { split.
    - subst n. change 0%Z with (Qfloor 0). apply Qfloor_resp_le. lra.
    - assert (Hlt : (n < 601)%Z); [| lia].
      rewrite Zlt_Qlt. change (inject_Z 601) with 601%Q. lra. }
  exists H, M, n.
  split; [exact HH0 |]. split; [exact HM |]. split; [exact Hn |].
  (* what the function computes *)
  assert (Etr : forall d : Q, (0 < d)%Q -> Qtrunc (q / d) = Qfloor (q / d)).
  { intros d Hd. unfold Qtrunc.
    assert (Hle : Qle_bool 0 (q / d) = true).
    { apply Qle_bool_iff. apply Qle_shift_div_l; [exact Hd | lra]. }
    rewrite Hle. reflexivity. }
  assert (Ehours : Math_floor (Fin q / of_Z 3600)%num = of_Z H)
    by reflexivity.
  assert (Erem1 : rem (Fin q) (of_Z 3600) = Fin r1).
  { unfold rem, of_Z. change (Qeq_bool (inject_Z 3600) 0) with false.
    cbv iota. change (inject_Z 3600) with 3600%Q.
    rewrite (Etr 3600%Q) by reflexivity. reflexivity. }
  assert (Emin : Math_floor (rem (Fin q) (of_Z 3600) / sixty)%num = of_Z M).
  { rewrite Erem1. reflexivity. }
  assert (Erem2 : rem (Fin q) sixty = Fin x).
  { unfold rem, sixty, of_Z. change (Qeq_bool (inject_Z 60) 0) with false.
    cbv iota. change (inject_Z 60) with 60%Q.
    rewrite (Etr 60%Q) by reflexivity. rewrite HK. reflexivity. }
  assert (Esecs : toFixed 1 (Fin x) = FixedDigits false n).
  { unfold toFixed.
    assert (Ha : (Qabs x == x)%Q) by (apply Qabs_pos; lra).
    assert (Hbig : Qle_bool (ten_to 21) (Qabs x) = false).
    { apply not_true_iff_false. intro Hb. apply Qle_bool_iff in Hb.
      rewrite Ha in Hb.
      change (ten_to 21) with (inject_Z 1000000000000000000000) in Hb.
      unfold inject_Z in Hb. lra. }
    rewrite Hbig.
    assert (Hneg : Draggable.Qltb x 0 = false).
    { unfold Draggable.Qltb. destruct (x ?= 0)%Q eqn:E; try reflexivity.
      apply Qlt_alt in E. exfalso. lra. }
    rewrite Hneg. f_equal. unfold n. apply Qfloor_comp.
    rewrite Ha. reflexivity. }
  unfold parseDuration.
  rewrite Ehours, Emin, Erem2, Esecs.
  cbn [text_hours text_minutes text_minutes_padded text_secs
       text_secs_padded].
  split.
  { unfold Num.gtb, zero. change (Fin 0) with (Fin (inject_Z 0)).
    unfold of_Z at 1. rewrite ltb_inject. reflexivity. }
  split; [reflexivity |].
  split; [unfold ten, of_Z; apply ltb_inject |].
  split; [reflexivity |].
  split.
  { unfold Number_of, ten, of_Z.
    destruct (n <? 100)%Z eqn:E.
    - apply ltb_Fin. apply Z.ltb_lt in E. rewrite Zlt_Qlt in E.
      change (inject_Z 100) with 100%Q in E.
      change (ten_to 1) with 10%Q. change (inject_Z 10) with 10%Q.
      apply Qlt_shift_div_r; [reflexivity | lra].
    - apply not_true_iff_false. intro Hlt. apply ltb_Fin in Hlt.
      apply Z.ltb_ge in E. rewrite Zle_Qle in E.
      change (inject_Z 100) with 100%Q in E.
      change (ten_to 1) with 10%Q in Hlt.
      change (inject_Z 10) with 10%Q in Hlt.
      assert (Hc : (inject_Z n / 10 * 10 == inject_Z n)%Q)
        by (field; discriminate).
      assert (Hd : (inject_Z n / 10 * 10 < 10 * 10)%Q).
      { apply Qmult_lt_r; [reflexivity | exact Hlt]. }
      lra. }
  assert (Hc : (inject_Z n / 10 == inject_Z n * (1 # 10))%Q)
    by (unfold Qdiv; reflexivity).
  rewrite Hc. apply Qabs_Qle_condition.
  unfold x in Hn1, Hn2. rewrite inject_Z_plus, inject_Z_mult in Hn1, Hn2.
  change (inject_Z 60) with 60%Q in Hn1, Hn2.
  split; lra.
Qed.

Lemma parseDuration_reads_close_witness :
  exists h m n,
    text_minutes (parseDuration (of_Z 125)) = of_Z m
    /\ text_secs (parseDuration (of_Z 125)) = FixedDigits false n
    /\ (Qabs (inject_Z h * 3600 + inject_Z m * 60 + inject_Z n / 10
              - inject_Z 125) <= 1 # 20)%Q.
Proof.
  assert (H0 : (0 <= inject_Z 125)%Q) by (vm_compute; discriminate).
  destruct (parseDuration_reads_close (inject_Z 125) H0)
    as (h & m & n & _ & _ & _ & _ & Hm & _ & Hs & _ & Hc).
  exists h, m, n. auto.
Defined.
